(** * hpoon: the persistent mark store

    A shallow embedding of [main.go] (farhansolodev/hpoon) and the
    properties of its store-file codec, repository and commands.

    Go strings are byte strings: they are modelled by [string], whose
    characters are the 256 byte values.  The Go library functions the
    program calls ([encoding/base64], [strings.Split], [bufio.Scanner])
    are modelled first, then the functions of [main.go] in source order. *)

From Stdlib Require Import ZArith Lia Zbitwise Ascii String List.
From stdpp Require Import gmap strings list fin_maps.

Local Open Scope Z_scope.

(** ** Bytes *)

Definition byte_val (c : ascii) : Z := Z.of_N (N_of_ascii c).
Definition byte_of (z : Z) : ascii := ascii_of_N (Z.to_N z).

Definition LF : ascii := byte_of 10.
Definition CR : ascii := byte_of 13.

(** [len(s)] as an integer. *)
Fixpoint strlen (s : string) : Z :=
  match s with
  | EmptyString => 0
  | String _ s' => 1 + strlen s'
  end.

(** [s] contains the byte [c]. *)
Fixpoint has_byte (c : ascii) (s : string) : bool :=
  match s with
  | EmptyString => false
  | String d s' => if Ascii.eqb c d then true else has_byte c s'
  end.

(** ** encoding/base64, [StdEncoding]

    The standard alphabet of RFC 4648 with [=] padding, decoded in the
    library's default (non-strict) mode. *)
Module Base64.

Definition encodeStd : string :=
  "ABCDEFGHIJKLMNOPQRSTUVWXYZabcdefghijklmnopqrstuvwxyz0123456789+/".

Definition padChar : ascii := "="%char.

(** [enc.encode[v]]; every index the encoder uses is masked by [0x3F]. *)
Definition encode (v : Z) : ascii :=
  match String.get (Z.to_nat v) encodeStd with
  | Some c => c
  | None => padChar
  end.

Fixpoint index_from (c : ascii) (s : string) (i : Z) : Z :=
  match s with
  | EmptyString => 255
  | String d s' => if Ascii.eqb c d then i else index_from c s' (i + 1)
  end.

(** [enc.decodeMap[c]]: the index of [c] in the alphabet, [0xFF] for a
    byte outside it. *)
Definition decodeMap (c : ascii) : Z := index_from c encodeStd 0.

(** The 24-bit group of an encoding step, [b0<<16 | b1<<8 | b2]. *)
Definition pack3 (b0 b1 b2 : Z) : Z :=
  Z.lor (Z.lor (Z.shiftl b0 16) (Z.shiftl b1 8)) b2.

(** The [k]-th 6-bit digit of a group, [val>>(18-6k) & 0x3F]. *)
Definition digit (val : Z) (sh : Z) : ascii :=
  encode (Z.land (Z.shiftr val sh) 63).

(** [EncodeToString]: three bytes give four digits; a remainder of one
    or two bytes gives two or three digits and padding. *)
Fixpoint EncodeToString (src : string) : string :=
  match src with
  | EmptyString => EmptyString
  | String b0 EmptyString =>
      let val := Z.shiftl (byte_val b0) 16 in
      String (digit val 18) (String (digit val 12)
        (String padChar (String padChar EmptyString)))
  | String b0 (String b1 EmptyString) =>
      let val := Z.lor (Z.shiftl (byte_val b0) 16) (Z.shiftl (byte_val b1) 8) in
      String (digit val 18) (String (digit val 12)
        (String (digit val 6) (String padChar EmptyString)))
  | String b0 (String b1 (String b2 rest)) =>
      let val := pack3 (byte_val b0) (byte_val b1) (byte_val b2) in
      String (digit val 18) (String (digit val 12)
        (String (digit val 6) (String (digit val 0) (EncodeToString rest))))
  end.

(** The decoder skips carriage returns and line feeds wherever they
    stand. *)
Definition is_newline (c : ascii) : bool :=
  Ascii.eqb c LF || Ascii.eqb c CR.

Fixpoint strip_newlines (s : string) : string :=
  match s with
  | EmptyString => EmptyString
  | String c s' =>
      if is_newline c then strip_newlines s' else String c (strip_newlines s')
  end.

(** The 24-bit value of a decoded quantum,
    [d0<<18 | d1<<12 | d2<<6 | d3]. *)
Definition pack4 (d0 d1 d2 d3 : Z) : Z :=
  Z.lor (Z.lor (Z.lor (Z.shiftl d0 18) (Z.shiftl d1 12)) (Z.shiftl d2 6)) d3.

Definition out_byte (val : Z) (sh : Z) : ascii :=
  byte_of (Z.land (Z.shiftr val sh) 255).

Definition valid (c : ascii) : bool := negb (decodeMap c =? 255).

(** One [decodeQuantum] after another over the input without its
    newlines.  A quantum is four digits, or two digits and [==], or
    three digits and [=]; padding ends the input.  Anything else is
    [CorruptInputError], here [None]. *)
Fixpoint decode_quanta (s : string) : option string :=
  match s with
  | EmptyString => Some EmptyString
  | String c0 (String c1 (String c2 (String c3 rest))) =>
      if valid c0 && valid c1 then
        if valid c2 then
          if valid c3 then
            let val := pack4 (decodeMap c0) (decodeMap c1) (decodeMap c2) (decodeMap c3) in
            match decode_quanta rest with
            | Some out =>
                Some (String (out_byte val 16) (String (out_byte val 8)
                       (String (out_byte val 0) out)))
            | None => None
            end
          else if Ascii.eqb c3 padChar then
            match rest with
            | EmptyString =>
                let val := pack4 (decodeMap c0) (decodeMap c1) (decodeMap c2) 0 in
                Some (String (out_byte val 16) (String (out_byte val 8) EmptyString))
            | _ => None
            end
          else None
        else if Ascii.eqb c2 padChar && Ascii.eqb c3 padChar then
          match rest with
          | EmptyString =>
              let val := pack4 (decodeMap c0) (decodeMap c1) 0 0 in
              Some (String (out_byte val 16) EmptyString)
          | _ => None
          end
        else None
      else None
  | _ => None
  end.

Definition DecodeString (s : string) : option string :=
  decode_quanta (strip_newlines s).

(** The value of a 6-bit digit of a group. *)
Definition dg (val sh : Z) : Z := Z.land (Z.shiftr val sh) 63.

(** The group of three bytes. *)
Definition group (b0 b1 b2 : ascii) : Z :=
  byte_val b0 * 65536 + byte_val b1 * 256 + byte_val b2.

Definition zero : ascii := byte_of 0.

(** Every byte of [s] satisfies [P]. *)
Fixpoint all_bytes (P : ascii → bool) (s : string) : bool :=
  match s with
  | EmptyString => true
  | String c s' => P c && all_bytes P s'
  end.

(** The bytes the encoder writes: digits of the alphabet and padding. *)
Definition b64_char (c : ascii) : bool := valid c || Ascii.eqb c padChar.

End Base64.

(** ** strings.Split, for a separator of one byte

    The parts of [s] between the occurrences of [sep]: one part more than
    there are separators, so the empty string gives one empty part. *)
Fixpoint split_on (sep : ascii) (s : string) : list string :=
  match s with
  | EmptyString => [EmptyString]
  | String c s' =>
      if Ascii.eqb c sep then EmptyString :: split_on sep s'
      else match split_on sep s' with
           | [] => [String c EmptyString]
           | p :: ps => String c p :: ps
           end
  end.

(** ** bufio.Scanner with the default split function [ScanLines] *)
Module Scanner.

(** [bufio.MaxScanTokenSize]: the buffer never grows beyond it, so a
    line that does not fit makes [Scan] stop with [ErrTooLong]. *)
Definition MaxScanTokenSize : Z := 65536.

(** [dropCR]: one trailing carriage return is removed. *)
Fixpoint dropCR (s : string) : string :=
  match s with
  | EmptyString => EmptyString
  | String c EmptyString => if Ascii.eqb c CR then EmptyString else s
  | String c s' => String c (dropCR s')
  end.

(** The tokens of the segments between line feeds, and whether the scan
    ended with [ErrTooLong].  The last segment is the unterminated
    rest of the input and gives a token only when it is not empty. *)
Fixpoint tokens (segs : list string) : list string * bool :=
  match segs with
  | [] => ([], false)
  | [rest] =>
      if bool_decide (rest = EmptyString) then ([], false)
      else if strlen rest <? MaxScanTokenSize then ([dropCR rest], false)
      else ([], true)
  | seg :: segs' =>
      if strlen seg <? MaxScanTokenSize then
        let (ts, e) := tokens segs' in (dropCR seg :: ts, e)
      else ([], true)
  end.

(** Every [scanner.Text()] of the loop, and [scanner.Err() != nil]. *)
Definition scan (content : string) : list string * bool :=
  tokens (split_on LF content).

(** A line the buffer can hold. *)
Definition fits (l : string) : Prop := strlen l < MaxScanTokenSize.

End Scanner.

(** ** main.go *)

Definition LAST_MARKED_KEY : string := "_".
Definition KV_SEPERATOR : ascii := "/"%char.
Definition NAME_REF : string := "!".

(** The process either goes on with a value or has called [quit], which
    is [os.Exit(1)]. *)
Inductive outcome (A : Type) : Type :=
  | Done (a : A)
  | Quit.
Arguments Done {A} a.
Arguments Quit {A}.

Record HarpoonRecord : Type := mkRecord {
  last_marked : string;
  marks : gmap string string
}.

(** The two errors of [parse_hpoon_line]: the line does not split in two
    parts, or its second part is not base64. *)
Inductive line_error : Type :=
  | InvalidFormat (line : string)
  | CorruptInput (value : string).

Definition parse_hpoon_line (line : string) : line_error + (string * string) :=
  match split_on KV_SEPERATOR line with
  | [key; value] =>
      match Base64.DecodeString value with
      | Some decoded_bytes => inr (key, decoded_bytes)
      | None => inl (CorruptInput value)
      end
  | _ => inl (InvalidFormat line)
  end.

Definition create_hpoon_line (key value : string) : string :=
  key +:+ String KV_SEPERATOR (Base64.EncodeToString value).

(** What the program can see and change: the marks file at
    [get_hpoon_file()], absent or with its content, and what [report] has
    written to standard error.  The file can always be opened, created
    and written when it is there or can be made. *)
Record world : Type := mkWorld {
  hpoon_file : option string;
  stderr : list line_error
}.

(** The body of the scan loop: [data] and [last_marked] after one more
    line, and the diagnostic of a line that does not parse. *)
Definition scan_step (acc : HarpoonRecord * list line_error) (line : string)
  : HarpoonRecord * list line_error :=
  match parse_hpoon_line line with
  | inl e => (acc.1, acc.2 ++ [e])
  | inr (key, val) =>
      if decide (key = LAST_MARKED_KEY)
      then (mkRecord val (marks acc.1), acc.2)
      else (mkRecord (last_marked acc.1) (<[key := val]> (marks acc.1)), acc.2)
  end.

Definition scan_loop (lines : list string) : HarpoonRecord * list line_error :=
  fold_left scan_step lines (mkRecord EmptyString ∅, []).

Definition read_hpoon_file (w : world) : world * outcome HarpoonRecord :=
  match hpoon_file w with
  | None => (w, Quit)
  | Some content =>
      let (lines, too_long) := Scanner.scan content in
      let (data, log) := scan_loop lines in
      (mkWorld (hpoon_file w) (stderr w ++ log),
       if too_long then Quit else Done data)
  end.

Definition non_value (v : string) : bool := bool_decide (v = EmptyString).

Definition nl : string := String LF EmptyString.

(** The [range] loop of [write_hpoon_file] over the entries in the order
    [kvs] in which the map yields them, appending to the file. *)
Definition write_marks (kvs : list (string * string)) (file : string) : string :=
  fold_left
    (fun file kv =>
       if non_value kv.2 then file
       else file +:+ create_hpoon_line kv.1 kv.2 +:+ nl)
    kvs file.

(** The content of the file after [write_hpoon_file] when the map is
    ranged over in the order [kvs]. *)
Definition written (data : HarpoonRecord) (kvs : list (string * string)) : string :=
  if non_value (last_marked data) then EmptyString
  else write_marks kvs (create_hpoon_line LAST_MARKED_KEY (last_marked data) +:+ nl).

(** Go ranges over a map in an order of its own choice: any order of the
    entries may be the one taken. *)
Definition write_hpoon_file (data : HarpoonRecord) (w w' : world) : Prop :=
  ∃ kvs, kvs ≡ₚ map_to_list (marks data) ∧
         w' = mkWorld (Some (written data kvs)) (stderr w).

(** [check_path_exists(hpoon_file)] in [load_hpoon]. *)
Definition check_hpoon_file_exists (w : world) : bool :=
  bool_decide (hpoon_file w ≠ None).

Definition load_hpoon (w : world) : world * outcome HarpoonRecord :=
  read_hpoon_file
    (if check_hpoon_file_exists w then w
     else mkWorld (Some EmptyString) (stderr w)).

Definition save_hpoon (data : HarpoonRecord) (w w' : world) : Prop :=
  write_hpoon_file data w w'.

(** [data.last_marked = fpath] and, with a name, [data.marks[*name] = fpath]. *)
Definition set_in_record (fpath : string) (name : option string)
    (data : HarpoonRecord) : HarpoonRecord :=
  mkRecord fpath
    (match name with
     | Some n => <[n := fpath]> (marks data)
     | None => marks data
     end).

(** [hpoon_set_mark] runs from [w] to [w'] without calling [quit]. *)
Definition hpoon_set_mark (fpath : string) (name : option string)
    (w w' : world) : Prop :=
  ∃ w1 data, load_hpoon w = (w1, Done data) ∧
             save_hpoon (set_in_record fpath name data) w1 w'.

Inductive mark_error : Type :=
  | MarkDoesNotExist (name : string).

Definition hpoon_get_mark (name : option string) (w : world)
  : world * outcome (mark_error + string) :=
  match load_hpoon w with
  | (w1, Quit) => (w1, Quit)
  | (w1, Done data) =>
      (w1, Done match name with
                | None => inr (last_marked data)
                | Some n =>
                    match marks data !! n with
                    | Some value => inr value
                    | None => inl (MarkDoesNotExist n)
                    end
                end)
  end.

(** The text [hpoon_list] prints when the map is ranged over in the
    order [kvs]. *)
Definition listing (kvs : list (string * string)) : string :=
  fold_left (fun output kv => output +:+ kv.1 +:+ ": " +:+ kv.2 +:+ nl)
    kvs EmptyString.

Definition hpoon_list (w : world) (output : string) (w' : world) : Prop :=
  ∃ data kvs, load_hpoon w = (w', Done data) ∧
              kvs ≡ₚ map_to_list (marks data) ∧ output = listing kvs.

(** [os.Remove]; its error is dropped. *)
Definition hpoon_clean (w : world) : world :=
  mkWorld None (stderr w).

(** *** The command line

    The file system outside the marks file, as far as the dispatch looks
    at it. *)
Record os_env : Type := mkEnv {
  check_path_exists : string → bool;  (* [os.Stat] does not say it is missing *)
  getwd : string;                     (* [os.Getwd] *)
  filepath_abs : string → option string   (* [filepath.Abs] *)
}.

(** What a dispatch function does next. *)
Inductive action : Type :=
  | PrintHelp
  | CallClean
  | CallList
  | CallOutMarkAt (arg : string)
  | CallSetMark (fpath : string) (name : option string)
  | QuitNotSure (arg : string)
  | QuitNoPath (fpath : string).

Fixpoint HasPrefix (s prefix : string) : bool :=
  match prefix, s with
  | EmptyString, _ => true
  | String p prefix', String c s' => Ascii.eqb c p && HasPrefix s' prefix'
  | String _ _, EmptyString => false
  end.

Definition check_name_ref (arg : string) : bool := HasPrefix arg NAME_REF.

Definition run_single_arg (env : os_env) (arg : string) : action :=
  if bool_decide (arg = "-h" ∨ arg = "--help") then PrintHelp
  else if bool_decide (arg = "clean") then CallClean
  else if bool_decide (arg = "list") then CallList
  else if check_name_ref arg then CallOutMarkAt arg
  else match filepath_abs env arg with
       | None => QuitNotSure arg
       | Some path =>
           if check_path_exists env path then CallSetMark path None
           else QuitNoPath path
       end.

Definition run_double_arg (env : os_env) (arg name : string) : action :=
  if negb (check_path_exists env arg) then QuitNoPath arg
  else
    let arg := if bool_decide (arg = ".") then getwd env else arg in
    CallSetMark arg (Some name).

(** ** The vocabulary of the statements *)

(** The lines [ls], each ended by a line feed. *)
Definition unlines (ls : list string) : string :=
  fold_right (λ l rest, l +:+ nl +:+ rest) EmptyString ls.

(** What a record holds under a key of the file: the reserved key stands
    for [last_marked], any other for its entry of [marks]. *)
Definition record_get (data : HarpoonRecord) (key : string) : option string :=
  if decide (key = LAST_MARKED_KEY) then Some (last_marked data)
  else marks data !! key.

(** The line parses, and to this key. *)
Definition line_key (line key : string) : Prop :=
  ∃ v, parse_hpoon_line line = inr (key, v).

(** The diagnostics of the lines that do not parse, in their order. *)
Definition diagnostics (lines : list string) : list line_error :=
  omap (λ l, match parse_hpoon_line l with
             | inl e => Some e
             | inr _ => None
             end) lines.

(** An entry the [range] loop writes: its path is not empty. *)
Definition has_value (kv : string * string) : Prop := kv.2 ≠ EmptyString.

Global Instance has_value_dec (kv : string * string) : Decision (has_value kv).
Proof. unfold has_value. apply _. Defined.

Definition entry_line (kv : string * string) : string :=
  create_hpoon_line kv.1 kv.2.

(** The lines of the file of a record with a last mark, for the order
    [kvs] of its entries. *)
Definition written_lines (data : HarpoonRecord) (kvs : list (string * string))
  : list string :=
  create_hpoon_line LAST_MARKED_KEY (last_marked data)
    :: (entry_line <$> filter has_value kvs).

(** No key of the map holds the separator or a line feed. *)
Definition plain_key (k : string) : Prop :=
  has_byte KV_SEPERATOR k = false ∧ has_byte LF k = false.

Definition plain_keys (m : gmap string string) : Prop :=
  ∀ k v, m !! k = Some v → plain_key k.

(** One run of [hpoon_set_mark]: the one that ranges over the map in
    the order of [map_to_list]. *)
Definition set_mark_run (p : string) (name : option string) (w : world)
  : world :=
  match load_hpoon w with
  | (w1, Done data) =>
      let data2 := set_in_record p name data in
      mkWorld (Some (written data2 (map_to_list (marks data2)))) (stderr w1)
  | (w1, Quit) => w1
  end.

(** The world before the first mark: no marks file. *)
Definition fresh : world := mkWorld None [].

(** A line of 65536 bytes. *)
Definition long_line : string :=
  Pos.iter (String "x"%char) EmptyString 65536%positive.

Definition long_file : string :=
  "home/L3RtcA==" +:+ nl +:+ long_line +:+ nl.

(** A path of 49152 bytes: its base64 text has 65536. *)
Definition long_path : string :=
  Pos.iter (String "A"%char) EmptyString 49152%positive.

(** A file with two lines that do not parse around one that does. *)
Definition torn_file : string :=
  "garbage" +:+ nl +:+ "home/L3RtcA==" +:+ nl +:+ "x/?" +:+ nl.

(** A file in which the key [a] stands on two lines. *)
Definition twice_file : string :=
  "a/QQ==" +:+ nl +:+ "_/L3g=" +:+ nl +:+ "a/Qg==" +:+ nl +:+ "b/Qw==" +:+ nl.

(** A directory [/home/u] with the entry [docs]. *)
Definition home_env : os_env :=
  mkEnv (λ p, bool_decide (p ∈ ["docs"; "."; "/home/u/docs"; "/home/u"]))
        "/home/u"
        (λ a, Some ("/home/u/" +:+ a)).

(** ** The rest of main.go *)

(** How a run that prints a mark ends: the mark is on standard output
    and the process goes on to status 0; or the error of
    [hpoon_get_mark] is on standard error and the status is 1; or [quit]
    was called on the way; or a slice bound was violated. *)
Inductive run_result : Type :=
  | Printed (mark : string)
  | Failed (e : mark_error)
  | Quitted
  | Panicked.

Definition print_mark (r : world * outcome (mark_error + string))
  : world * run_result :=
  match r with
  | (w1, Quit) => (w1, Quitted)
  | (w1, Done (inl e)) => (w1, Failed e)
  | (w1, Done (inr mark)) => (w1, Printed mark)
  end.


(** [name := arg[len(NAME_REF):]] needs one byte in [arg]. *)
Definition hpoon_out_mark_at (arg : string) (w : world) : world * run_result :=
  match arg with
  | EmptyString => (w, Panicked)
  | String _ name => print_mark (hpoon_get_mark (Some name) w)
  end.

(** What [main] does with [os.Args]. *)
Inductive entry : Type :=
  | RunNoArg
  | Run (a : action)
  | QuitShortHelp.

Definition main (env : os_env) (args : list string) : entry :=
  match args with
  | [_] => RunNoArg
  | [_; arg] => Run (run_single_arg env arg)
  | [_; arg; name] => Run (run_double_arg env arg name)
  | _ => QuitShortHelp
  end.

(** The line of [hpoon_list] for one entry. *)
Definition list_line (kv : string * string) : string :=
  kv.1 +:+ ": " +:+ kv.2 +:+ nl.

(** The concatenation of strings. *)
Definition concat_strings (ls : list string) : string :=
  fold_right String.append EmptyString ls.

(** A store with the last mark [/x] and the marks [a] and [b]. *)
Definition two_marks : world :=
  mkWorld (Some ("_/L3g=" +:+ nl +:+ "a/Qg==" +:+ nl +:+ "b/Qw==" +:+ nl)) [].

(** A record with a mark without path. *)
Definition sample_record : HarpoonRecord :=
  mkRecord "/x" (<["a" := "B"]> {["gone" := EmptyString]}).

Ltac divmod := Z.div_mod_to_equations; lia.

(** ** Checks on concrete inputs *)

Example b64_foobar : Base64.EncodeToString "foobar" = "Zm9vYmFy".
Proof. reflexivity. Qed.
Example b64_fooba : Base64.EncodeToString "fooba" = "Zm9vYmE=".
Proof. reflexivity. Qed.
Example b64_foob : Base64.EncodeToString "foob" = "Zm9vYg==".
Proof. reflexivity. Qed.
Example b64_dec_foob : Base64.DecodeString "Zm9vYg==" = Some "foob".
Proof. reflexivity. Qed.
Example b64_dec_fooba : Base64.DecodeString "Zm9vYmE=" = Some "fooba".
Proof. reflexivity. Qed.
Example b64_dec_short_padding : Base64.DecodeString "Zm9vYg=" = None.
Proof. reflexivity. Qed.
Example b64_slash : Base64.EncodeToString "/tmp/?" = "L3RtcC8/".
Proof. reflexivity. Qed.
Example split_three : split_on KV_SEPERATOR "a/b/c" = ["a"; "b"; "c"].
Proof. reflexivity. Qed.
Example split_empty : split_on KV_SEPERATOR EmptyString = [EmptyString].
Proof. reflexivity. Qed.
Example scan_two :
  Scanner.scan ("a/QQ==" +:+ nl +:+ "b" +:+ String CR nl +:+ "c")
  = (["a/QQ=="; "b"; "c"], false).
Proof. vm_compute. reflexivity. Qed.
Example parse_ok : parse_hpoon_line "home/L3RtcA==" = inr ("home", "/tmp").
Proof. vm_compute. reflexivity. Qed.

(** ** Bytes and bit arithmetic *)

Lemma byte_val_range (c : ascii) : 0 <= byte_val c < 256.
Proof.
  unfold byte_val. pose proof (N_ascii_bounded c). lia.
Qed.

Lemma byte_of_val (c : ascii) : byte_of (byte_val c) = c.
Proof.
  unfold byte_of, byte_val. rewrite N2Z.id. apply ascii_N_embedding.
Qed.

Lemma byte_val_of (z : Z) : 0 <= z < 256 → byte_val (byte_of z) = z.
Proof.
  intros Hz. unfold byte_of, byte_val.
  rewrite N_ascii_embedding by lia. lia.
Qed.

Lemma ascii_eqb_false (a b : ascii) : a ≠ b → Ascii.eqb a b = false.
Proof. intros H. apply Ascii.eqb_neq. exact H. Qed.

(** [x | y] is [x + y] when [x] has no bit below [n] and [y] none from
    [n] on. *)
Lemma lor_shiftl_add (a b n : Z) :
  0 <= n → 0 <= b < 2 ^ n → Z.lor (Z.shiftl a n) b = a * 2 ^ n + b.
Proof.
  intros Hn Hb.
  assert (H0 : Z.land (Z.shiftl a n) b = 0).
  { apply Z.bits_inj'. intros m Hm. rewrite Z.land_spec, Z.bits_0.
    destruct (Z.ltb_spec m n).
    - rewrite Z.shiftl_spec_low by lia. reflexivity.
    - destruct (Z.eq_dec b 0) as [->|Hb0].
      + rewrite Z.bits_0. apply andb_false_r.
      + rewrite (Z.bits_above_log2 b m); [apply andb_false_r | lia |].
        apply Z.log2_lt_pow2; [lia|].
        apply Z.lt_le_trans with (2 ^ n); [lia|].
        apply Z.pow_le_mono_r; lia. }
  pose proof (Z.add_lor_land (Z.shiftl a n) b) as H.
  rewrite H0 in H. rewrite <- (Z.shiftl_mul_pow2 a n) by lia. lia.
Qed.

Lemma lor_add (x y n : Z) :
  0 <= n → x mod 2 ^ n = 0 → 0 <= y < 2 ^ n → Z.lor x y = x + y.
Proof.
  intros Hn Hx Hy.
  assert (Hx' : x = Z.shiftl (x / 2 ^ n) n).
  { rewrite Z.shiftl_mul_pow2 by lia.
    pose proof (Z.div_mod x (2 ^ n)). lia. }
  rewrite Hx' at 1. rewrite lor_shiftl_add by lia.
  pose proof (Z.div_mod x (2 ^ n)). lia.
Qed.

Lemma land_shiftr_63 (val sh : Z) :
  0 <= sh → Z.land (Z.shiftr val sh) 63 = (val / 2 ^ sh) mod 64.
Proof.
  intros Hsh. change 63 with (Z.ones 6).
  rewrite Z.land_ones, Z.shiftr_div_pow2 by lia. reflexivity.
Qed.

Lemma land_shiftr_255 (val sh : Z) :
  0 <= sh → Z.land (Z.shiftr val sh) 255 = (val / 2 ^ sh) mod 256.
Proof.
  intros Hsh. change 255 with (Z.ones 8).
  rewrite Z.land_ones, Z.shiftr_div_pow2 by lia. reflexivity.
Qed.

Module Base64Facts.
Import Base64.

Lemma pack3_add (b0 b1 b2 : Z) :
  0 <= b0 < 256 → 0 <= b1 < 256 → 0 <= b2 < 256 →
  pack3 b0 b1 b2 = b0 * 65536 + b1 * 256 + b2.
Proof.
  intros H0 H1 H2. unfold pack3.
  rewrite !Z.shiftl_mul_pow2 by lia.
  change (2 ^ 16) with 65536. change (2 ^ 8) with 256.
  rewrite (lor_add (b0 * 65536) (b1 * 256) 16);
    [| lia | change (2 ^ 16) with 65536; divmod
       | change (2 ^ 16) with 65536; lia].
  rewrite (lor_add _ b2 8);
    [| lia | change (2 ^ 8) with 256; divmod
       | change (2 ^ 8) with 256; lia].
  reflexivity.
Qed.

Lemma pack4_add (d0 d1 d2 d3 : Z) :
  0 <= d0 < 64 → 0 <= d1 < 64 → 0 <= d2 < 64 → 0 <= d3 < 64 →
  pack4 d0 d1 d2 d3 = d0 * 262144 + d1 * 4096 + d2 * 64 + d3.
Proof.
  intros H0 H1 H2 H3. unfold pack4.
  rewrite !Z.shiftl_mul_pow2 by lia.
  change (2 ^ 18) with 262144. change (2 ^ 12) with 4096.
  change (2 ^ 6) with 64.
  rewrite (lor_add (d0 * 262144) (d1 * 4096) 18);
    [| lia | change (2 ^ 18) with 262144; divmod
       | change (2 ^ 18) with 262144; lia].
  rewrite (lor_add _ (d2 * 64) 12);
    [| lia | change (2 ^ 12) with 4096; divmod
       | change (2 ^ 12) with 4096; lia].
  rewrite (lor_add _ d3 6);
    [| lia | change (2 ^ 6) with 64; divmod
       | change (2 ^ 6) with 64; lia].
  reflexivity.
Qed.

Lemma dg_range (val sh : Z) : 0 <= sh → 0 <= dg val sh < 64.
Proof.
  intros Hsh. unfold dg. rewrite land_shiftr_63 by lia.
  apply Z.mod_pos_bound. lia.
Qed.

(** Packing the digits of a group gives the group back. *)
Lemma pack4_digits (val : Z) :
  0 <= val < 16777216 →
  pack4 (dg val 18) (dg val 12) (dg val 6) (dg val 0) = val.
Proof.
  intros Hval.
  rewrite pack4_add by (apply dg_range; lia).
  unfold dg. rewrite !land_shiftr_63 by lia.
  change (2 ^ 18) with 262144. change (2 ^ 12) with 4096.
  change (2 ^ 6) with 64. change (2 ^ 0) with 1.
  divmod.
Qed.

Lemma out_bytes (b0 b1 b2 : Z) :
  0 <= b0 < 256 → 0 <= b1 < 256 → 0 <= b2 < 256 →
  let val := b0 * 65536 + b1 * 256 + b2 in
  Z.land (Z.shiftr val 16) 255 = b0 ∧
  Z.land (Z.shiftr val 8) 255 = b1 ∧
  Z.land (Z.shiftr val 0) 255 = b2.
Proof.
  intros H0 H1 H2 val. unfold val.
  rewrite !land_shiftr_255 by lia.
  change (2 ^ 16) with 65536. change (2 ^ 8) with 256.
  change (2 ^ 0) with 1.
  repeat split; divmod.
Qed.

(** A property of every 6-bit value, checked on the 64 of them. *)
Lemma all_digits (P : Z → bool) :
  forallb P (map Z.of_nat (seq 0 64)) = true →
  ∀ v, 0 <= v < 64 → P v = true.
Proof.
  intros Hall v Hv. rewrite forallb_forall in Hall.
  apply Hall. apply in_map_iff. exists (Z.to_nat v). split; [lia|].
  apply in_seq. lia.
Qed.

Lemma decodeMap_encode (v : Z) : 0 <= v < 64 → decodeMap (encode v) = v.
Proof.
  intros Hv. apply Z.eqb_eq.
  revert v Hv. apply all_digits. vm_compute. reflexivity.
Qed.

Lemma valid_encode (v : Z) : 0 <= v < 64 → valid (encode v) = true.
Proof.
  revert v. apply all_digits. vm_compute. reflexivity.
Qed.

Lemma encode_not_newline (v : Z) :
  0 <= v < 64 → is_newline (encode v) = false.
Proof.
  intros Hv. apply negb_true_iff.
  revert v Hv. apply all_digits. vm_compute. reflexivity.
Qed.

Lemma encode_not_CR (v : Z) : 0 <= v < 64 → encode v ≠ CR.
Proof.
  intros Hv Heq. pose proof (encode_not_newline v Hv) as H.
  unfold is_newline in H. rewrite Heq in H.
  rewrite Ascii.eqb_refl, orb_true_r in H. discriminate.
Qed.

Lemma encode_not_LF (v : Z) : 0 <= v < 64 → encode v ≠ LF.
Proof.
  intros Hv Heq. pose proof (encode_not_newline v Hv) as H.
  unfold is_newline in H. rewrite Heq in H.
  rewrite Ascii.eqb_refl in H. discriminate.
Qed.

Lemma string_ind3 (P : string → Prop) :
  P EmptyString →
  (∀ a, P (String a EmptyString)) →
  (∀ a b, P (String a (String b EmptyString))) →
  (∀ a b c s, P s → P (String a (String b (String c s)))) →
  ∀ s, P s.
Proof.
  intros H0 H1 H2 H3 s.
  enough (P s ∧ (∀ a, P (String a s)) ∧ (∀ a b, P (String a (String b s))))
    as [H _]; [exact H|].
  induction s as [|c s (IH0 & IH1 & IH2)]; [auto|].
  repeat split; auto.
Qed.

Lemma digit_encode (val sh : Z) : digit val sh = encode (dg val sh).
Proof. reflexivity. Qed.

Lemma valid_digit (val sh : Z) : 0 <= sh → valid (digit val sh) = true.
Proof. intros. apply valid_encode, dg_range. lia. Qed.

Lemma decodeMap_digit (val sh : Z) :
  0 <= sh → decodeMap (digit val sh) = dg val sh.
Proof. intros. apply decodeMap_encode, dg_range. lia. Qed.

Lemma valid_padChar : valid padChar = false.
Proof. reflexivity. Qed.

Lemma group_range (b0 b1 b2 : ascii) : 0 <= group b0 b1 b2 < 16777216.
Proof.
  unfold group. pose proof (byte_val_range b0).
  pose proof (byte_val_range b1). pose proof (byte_val_range b2). lia.
Qed.

Lemma pack3_group (b0 b1 b2 : ascii) :
  pack3 (byte_val b0) (byte_val b1) (byte_val b2) = group b0 b1 b2.
Proof. apply pack3_add; apply byte_val_range. Qed.

Lemma pack2_group (b0 b1 : ascii) :
  Z.lor (Z.shiftl (byte_val b0) 16) (Z.shiftl (byte_val b1) 8)
  = group b0 b1 zero.
Proof.
  rewrite <- pack3_group. unfold pack3.
  change (byte_val zero) with 0. rewrite Z.lor_0_r. reflexivity.
Qed.

Lemma pack1_group (b0 : ascii) :
  Z.shiftl (byte_val b0) 16 = group b0 zero zero.
Proof.
  rewrite <- pack2_group. change (byte_val zero) with 0.
  rewrite Z.shiftl_0_l, Z.lor_0_r. reflexivity.
Qed.

Lemma dg0_group2 (b0 b1 : ascii) : dg (group b0 b1 zero) 0 = 0.
Proof.
  unfold dg, group. rewrite land_shiftr_63 by lia.
  change (byte_val zero) with 0. change (2 ^ 0) with 1.
  pose proof (byte_val_range b0). pose proof (byte_val_range b1). divmod.
Qed.

Lemma dg6_group1 (b0 : ascii) : dg (group b0 zero zero) 6 = 0.
Proof.
  unfold dg, group. rewrite land_shiftr_63 by lia.
  change (byte_val zero) with 0. change (2 ^ 6) with 64.
  pose proof (byte_val_range b0). divmod.
Qed.

Lemma out_group (b0 b1 b2 : ascii) :
  out_byte (group b0 b1 b2) 16 = b0 ∧
  out_byte (group b0 b1 b2) 8 = b1 ∧
  out_byte (group b0 b1 b2) 0 = b2.
Proof.
  destruct (out_bytes (byte_val b0) (byte_val b1) (byte_val b2))
    as (H0 & H1 & H2); try apply byte_val_range.
  unfold out_byte, group. rewrite H0, H1, H2, !byte_of_val. auto.
Qed.

(** A quantum of four digits. *)
Lemma decode_quanta_digits (val : Z) (rest : string) :
  decode_quanta
    (String (digit val 18) (String (digit val 12)
      (String (digit val 6) (String (digit val 0) rest))))
  = match decode_quanta rest with
    | Some out =>
        let v := pack4 (dg val 18) (dg val 12) (dg val 6) (dg val 0) in
        Some (String (out_byte v 16) (String (out_byte v 8)
               (String (out_byte v 0) out)))
    | None => None
    end.
Proof.
  cbn [decode_quanta].
  rewrite !valid_digit, !decodeMap_digit by lia. reflexivity.
Qed.

Lemma decode_quanta_pad1 (val : Z) :
  decode_quanta
    (String (digit val 18) (String (digit val 12)
      (String (digit val 6) (String padChar EmptyString))))
  = let v := pack4 (dg val 18) (dg val 12) (dg val 6) 0 in
    Some (String (out_byte v 16) (String (out_byte v 8) EmptyString)).
Proof.
  cbn [decode_quanta].
  rewrite !valid_digit, !decodeMap_digit, valid_padChar by lia.
  reflexivity.
Qed.

Lemma decode_quanta_pad2 (val : Z) :
  decode_quanta
    (String (digit val 18) (String (digit val 12)
      (String padChar (String padChar EmptyString))))
  = let v := pack4 (dg val 18) (dg val 12) 0 0 in
    Some (String (out_byte v 16) EmptyString).
Proof.
  cbn [decode_quanta].
  rewrite !valid_digit, !decodeMap_digit, valid_padChar by lia.
  reflexivity.
Qed.

Lemma decode_quanta_encode (s : string) :
  decode_quanta (EncodeToString s) = Some s.
Proof.
  induction s as [|b0|b0 b1|b0 b1 b2 s IH] using string_ind3.
  - reflexivity.
  - cbn [EncodeToString]. rewrite pack1_group, decode_quanta_pad2. cbn zeta.
    rewrite <- (dg6_group1 b0) at 1.
    rewrite <- (dg0_group2 b0 zero).
    rewrite pack4_digits by apply group_range.
    destruct (out_group b0 zero zero) as (-> & _). reflexivity.
  - cbn [EncodeToString]. rewrite pack2_group, decode_quanta_pad1. cbn zeta.
    rewrite <- (dg0_group2 b0 b1).
    rewrite pack4_digits by apply group_range.
    destruct (out_group b0 b1 zero) as (-> & -> & _). reflexivity.
  - cbn [EncodeToString]. rewrite pack3_group, decode_quanta_digits, IH.
    cbn zeta. rewrite pack4_digits by apply group_range.
    destruct (out_group b0 b1 b2) as (-> & -> & ->). reflexivity.
Qed.

Lemma is_newline_digit (val sh : Z) :
  0 <= sh → is_newline (digit val sh) = false.
Proof. intros. apply encode_not_newline, dg_range. lia. Qed.

Lemma strip_newlines_encode (s : string) :
  strip_newlines (EncodeToString s) = EncodeToString s.
Proof.
  induction s as [|b0|b0 b1|b0 b1 b2 s IH] using string_ind3;
    cbn [EncodeToString strip_newlines];
    rewrite ?is_newline_digit by lia;
    change (is_newline padChar) with false; cbn iota;
    rewrite ?IH; reflexivity.
Qed.

(** Decoding what the encoder wrote gives the bytes back. *)
Lemma DecodeString_EncodeToString (s : string) :
  DecodeString (EncodeToString s) = Some s.
Proof.
  unfold DecodeString.
  rewrite strip_newlines_encode. apply decode_quanta_encode.
Qed.

End Base64Facts.

(** ** Strings, [split_on] and the scanner *)

Lemma append_nil_r (s : string) : s +:+ EmptyString = s.
Proof.
  induction s as [|c s IH]; [reflexivity|].
  change (String c (s +:+ EmptyString) = String c s). rewrite IH. reflexivity.
Qed.

Lemma append_cons (c : ascii) (a b : string) :
  String c a +:+ b = String c (a +:+ b).
Proof. reflexivity. Qed.

Lemma append_assoc (a b c : string) : (a +:+ b) +:+ c = a +:+ (b +:+ c).
Proof.
  induction a as [|x a IH]; [reflexivity|].
  rewrite !append_cons, IH. reflexivity.
Qed.

Lemma strlen_nonneg (s : string) : 0 <= strlen s.
Proof. induction s; simpl; lia. Qed.

Lemma strlen_app (a b : string) : strlen (a +:+ b) = strlen a + strlen b.
Proof.
  induction a as [|x a IH]; [reflexivity|].
  change (strlen (String x a +:+ b)) with (1 + strlen (a +:+ b)).
  change (strlen (String x a)) with (1 + strlen a). lia.
Qed.

Lemma has_byte_app (c : ascii) (a b : string) :
  has_byte c (a +:+ b) = has_byte c a || has_byte c b.
Proof.
  induction a as [|x a IH]; simpl; [reflexivity|].
  destruct (Ascii.eqb c x); [reflexivity | exact IH].
Qed.

Lemma split_on_cons (sep : ascii) (s : string) :
  ∃ p ps, split_on sep s = p :: ps.
Proof.
  destruct s as [|c s]; simpl; [eauto|].
  destruct (Ascii.eqb c sep); [eauto|].
  destruct (split_on sep s); eauto.
Qed.

Lemma split_on_no_sep (sep : ascii) (s : string) :
  has_byte sep s = false → split_on sep s = [s].
Proof.
  induction s as [|c s IH]; simpl; [reflexivity|].
  rewrite (Ascii.eqb_sym c sep).
  destruct (Ascii.eqb sep c); [discriminate|].
  intros H. rewrite (IH H). reflexivity.
Qed.

Lemma split_on_app (sep : ascii) (a b : string) :
  has_byte sep a = false →
  split_on sep (a +:+ String sep b) = a :: split_on sep b.
Proof.
  induction a as [|c a IH]; simpl.
  - intros _. rewrite Ascii.eqb_refl. reflexivity.
  - rewrite (Ascii.eqb_sym c sep).
    destruct (Ascii.eqb sep c); [discriminate|].
    intros H. rewrite (IH H). reflexivity.
Qed.

(** One part only: there was no separator. *)
Lemma split_on_single (sep : ascii) (s p : string) :
  split_on sep s = [p] → has_byte sep s = false.
Proof.
  revert p. induction s as [|c s IH]; simpl; intros p; [reflexivity|].
  rewrite (Ascii.eqb_sym c sep).
  destruct (Ascii.eqb sep c).
  - destruct (split_on_cons sep s) as (q & qs & ->). discriminate.
  - destruct (split_on sep s) as [|q [|q' qs]] eqn:E; try discriminate.
    + destruct (split_on_cons sep s) as (q & qs & E'). congruence.
    + intros _. eapply IH. reflexivity.
Qed.

(** No part holds the separator, and a part holds no byte that the
    whole does not hold. *)
Lemma split_on_parts (sep : ascii) (s : string) :
  Forall (λ p, has_byte sep p = false ∧
               ∀ c, has_byte c s = false → has_byte c p = false)
         (split_on sep s).
Proof.
  induction s as [|c s IH]; simpl.
  - repeat constructor.
  - destruct (Ascii.eqb c sep) eqn:Ec.
    + constructor; [split; [reflexivity | intros; reflexivity]|].
      eapply Forall_impl; [exact IH|]. intros p [Hp Hsub]. split; [exact Hp|].
      intros d Hd. apply Hsub. destruct (Ascii.eqb d c); [discriminate|exact Hd].
    + destruct (split_on_cons sep s) as (q & qs & E). rewrite E in *.
      inversion IH as [|? ? [Hq Hsub] Hqs]; subst.
      constructor.
      * split.
        -- simpl. rewrite (Ascii.eqb_sym sep c), Ec. exact Hq.
        -- intros d Hd. simpl. destruct (Ascii.eqb d c); [discriminate|].
           apply Hsub, Hd.
      * eapply Forall_impl; [exact Hqs|]. intros p [Hp Hsub']. split; [exact Hp|].
        intros d Hd. apply Hsub'. destruct (Ascii.eqb d c); [discriminate|exact Hd].
Qed.

Lemma split_on_unlines (ls : list string) :
  Forall (λ l, has_byte LF l = false) ls →
  split_on LF (unlines ls) = ls ++ [EmptyString].
Proof.
  induction 1 as [|l ls Hl Hls IH]; [reflexivity|].
  change (unlines (l :: ls)) with (l +:+ String LF (unlines ls)).
  rewrite split_on_app by exact Hl. rewrite IH. reflexivity.
Qed.

Module ScannerFacts.
Import Scanner.

Lemma dropCR_bytes (c : ascii) (s : string) :
  has_byte c s = false → has_byte c (dropCR s) = false.
Proof.
  induction s as [|d s IH]; [reflexivity|].
  destruct s as [|e s].
  - cbn [dropCR has_byte]. destruct (Ascii.eqb d CR); [reflexivity|].
    cbn [has_byte]. auto.
  - change (dropCR (String d (String e s)))
      with (String d (dropCR (String e s))).
    cbn [has_byte] in *. destruct (Ascii.eqb c d); [discriminate|]. exact IH.
Qed.

Lemma dropCR_no_CR (s : string) : has_byte CR s = false → dropCR s = s.
Proof.
  induction s as [|d s IH]; [reflexivity|].
  destruct s as [|e s].
  - cbn [dropCR has_byte]. rewrite (Ascii.eqb_sym d CR).
    destruct (Ascii.eqb CR d); [discriminate | reflexivity].
  - change (dropCR (String d (String e s)))
      with (String d (dropCR (String e s))).
    intros H. cbn [has_byte] in H. destruct (Ascii.eqb CR d); [discriminate|].
    rewrite (IH H). reflexivity.
Qed.

Lemma dropCR_app (a b : string) :
  b ≠ EmptyString → dropCR (a +:+ b) = a +:+ dropCR b.
Proof.
  intros Hb. induction a as [|c a IH]; [reflexivity|].
  rewrite !append_cons. destruct (a +:+ b) as [|e r] eqn:E.
  - destruct a; [contradiction | discriminate].
  - change (dropCR (String c (String e r)))
      with (String c (dropCR (String e r))).
    rewrite IH. reflexivity.
Qed.

Lemma tokens_cons (l : string) (ls : list string) :
  tokens ((l :: ls) ++ [EmptyString]) =
    if strlen l <? MaxScanTokenSize
    then let (ts, e) := tokens (ls ++ [EmptyString]) in (dropCR l :: ts, e)
    else ([], true).
Proof.
  simpl. destruct (ls ++ [EmptyString]) eqn:E; [|reflexivity].
  destruct ls; discriminate.
Qed.

(** The tokens of complete lines: all of them when each fits, and only
    then does the scan end without [ErrTooLong]. *)
Lemma tokens_lines (ls : list string) :
  Forall fits ls → tokens (ls ++ [EmptyString]) = (dropCR <$> ls, false).
Proof.
  induction 1 as [|l ls Hl Hls IH]; [reflexivity|].
  rewrite tokens_cons, IH.
  destruct (Z.ltb_spec (strlen l) MaxScanTokenSize); [reflexivity|].
  unfold fits in Hl. lia.
Qed.

Lemma tokens_too_long (ls : list string) :
  ¬ Forall fits ls → (tokens (ls ++ [EmptyString])).2 = true.
Proof.
  induction ls as [|l ls IH]; intros Hn.
  - exfalso. apply Hn. constructor.
  - rewrite tokens_cons.
    destruct (Z.ltb_spec (strlen l) MaxScanTokenSize) as [Hl|Hl]; [|reflexivity].
    destruct (tokens (ls ++ [EmptyString])) as [ts e]. simpl in *.
    apply IH. intros Hls. apply Hn. constructor; assumption.
Qed.

Lemma scan_unlines (ls : list string) :
  Forall (λ l, has_byte LF l = false) ls → Forall fits ls →
  scan (unlines ls) = (dropCR <$> ls, false).
Proof.
  intros H Hfit. unfold scan. rewrite split_on_unlines by exact H.
  apply tokens_lines, Hfit.
Qed.

Lemma scan_unlines_too_long (ls : list string) :
  Forall (λ l, has_byte LF l = false) ls → ¬ Forall fits ls →
  (scan (unlines ls)).2 = true.
Proof.
  intros H Hfit. unfold scan. rewrite split_on_unlines by exact H.
  apply tokens_too_long, Hfit.
Qed.

(** No token holds a line feed. *)
Lemma tokens_no_LF (segs : list string) :
  Forall (λ p, has_byte LF p = false) segs →
  Forall (λ l, has_byte LF l = false) (tokens segs).1.
Proof.
  induction 1 as [|p segs Hp Hsegs IH]; [constructor|].
  destruct segs as [|q segs].
  - simpl. case_bool_decide; [constructor|].
    destruct (strlen p <? MaxScanTokenSize); simpl; [|constructor].
    constructor; [|constructor]. apply dropCR_bytes, Hp.
  - change (tokens (p :: q :: segs))
      with (if strlen p <? MaxScanTokenSize
            then let (ts, e) := tokens (q :: segs) in (dropCR p :: ts, e)
            else ([], true)).
    destruct (strlen p <? MaxScanTokenSize); [|constructor].
    destruct (tokens (q :: segs)) as [ts e]. simpl in *.
    constructor; [apply dropCR_bytes, Hp | exact IH].
Qed.

Lemma scan_no_LF (content : string) :
  Forall (λ l, has_byte LF l = false) (scan content).1.
Proof.
  apply tokens_no_LF.
  eapply Forall_impl; [apply (split_on_parts LF content)|].
  intros p [Hp _]. exact Hp.
Qed.

End ScannerFacts.

(** ** The line codec *)

Module CodecFacts.
Import Base64 Base64Facts Scanner ScannerFacts.

Lemma all_bytes_has (P : ascii → bool) (c : ascii) (s : string) :
  all_bytes P s = true → P c = false → has_byte c s = false.
Proof.
  intros Hall Hc. induction s as [|d s IH]; [reflexivity|].
  cbn [all_bytes has_byte] in *. apply andb_true_iff in Hall as [Hd Hs].
  destruct (Ascii.eqb_spec c d) as [->|_]; [congruence | auto].
Qed.

Lemma b64_char_digit (val sh : Z) : 0 <= sh → b64_char (digit val sh) = true.
Proof. intros. unfold b64_char. rewrite valid_digit by lia. reflexivity. Qed.

Lemma encode_alphabet (s : string) :
  all_bytes b64_char (EncodeToString s) = true.
Proof.
  induction s as [|b0|b0 b1|b0 b1 b2 s IH] using string_ind3;
    cbn [EncodeToString all_bytes];
    rewrite ?b64_char_digit by lia;
    change (b64_char padChar) with true; rewrite ?IH; reflexivity.
Qed.

Lemma encode_no_LF (s : string) : has_byte LF (EncodeToString s) = false.
Proof. eapply all_bytes_has; [apply encode_alphabet | reflexivity]. Qed.

Lemma encode_no_CR (s : string) : has_byte CR (EncodeToString s) = false.
Proof. eapply all_bytes_has; [apply encode_alphabet | reflexivity]. Qed.

Lemma create_no_LF (key value : string) :
  has_byte LF key = false → has_byte LF (create_hpoon_line key value) = false.
Proof.
  intros Hk. unfold create_hpoon_line. rewrite has_byte_app, Hk.
  cbn [has_byte orb].
  change (Ascii.eqb LF KV_SEPERATOR) with false. apply encode_no_LF.
Qed.

(** A written line never ends in a carriage return. *)
Lemma dropCR_create (key value : string) :
  dropCR (create_hpoon_line key value) = create_hpoon_line key value.
Proof.
  unfold create_hpoon_line. rewrite dropCR_app by discriminate.
  rewrite dropCR_no_CR; [reflexivity|].
  cbn [has_byte]. change (Ascii.eqb CR KV_SEPERATOR) with false.
  apply encode_no_CR.
Qed.

Lemma split_create (key value : string) :
  has_byte KV_SEPERATOR key = false →
  split_on KV_SEPERATOR (create_hpoon_line key value)
  = key :: split_on KV_SEPERATOR (EncodeToString value).
Proof. intros Hk. unfold create_hpoon_line. apply split_on_app, Hk. Qed.

(** The round trip of the codec, for a key without the separator and a
    value whose encoding holds none. *)
Lemma parse_create (key value : string) :
  has_byte KV_SEPERATOR key = false →
  has_byte KV_SEPERATOR (EncodeToString value) = false →
  parse_hpoon_line (create_hpoon_line key value) = inr (key, value).
Proof.
  intros Hk Hv. unfold parse_hpoon_line.
  rewrite split_create by exact Hk.
  rewrite split_on_no_sep by exact Hv.
  rewrite DecodeString_EncodeToString. reflexivity.
Qed.

(** A written line whose key holds no separator parses to its own key
    and value or not at all. *)
Lemma parse_create_inv (key value k v : string) :
  has_byte KV_SEPERATOR key = false →
  parse_hpoon_line (create_hpoon_line key value) = inr (k, v) →
  k = key ∧ v = value ∧ has_byte KV_SEPERATOR (EncodeToString value) = false.
Proof.
  intros Hk. unfold parse_hpoon_line. rewrite split_create by exact Hk.
  destruct (split_on KV_SEPERATOR (EncodeToString value))
    as [|p [|q ps]] eqn:E; try discriminate.
  pose proof (split_on_single _ _ _ E) as Hv.
  rewrite split_on_no_sep in E by exact Hv. injection E as <-.
  rewrite DecodeString_EncodeToString. intros [= <- <-]. auto.
Qed.

(** The key of a parsed line holds no separator and no byte that the
    line does not hold. *)
Lemma parse_key (line k v : string) :
  parse_hpoon_line line = inr (k, v) →
  has_byte KV_SEPERATOR k = false ∧
  ∀ c, has_byte c line = false → has_byte c k = false.
Proof.
  unfold parse_hpoon_line. pose proof (split_on_parts KV_SEPERATOR line) as H.
  destruct (split_on KV_SEPERATOR line) as [|p [|q [|r ps]]]; try discriminate.
  destruct (DecodeString q); [|discriminate].
  intros [= <- <-]. inversion H as [|? ? Hp _]. exact Hp.
Qed.

End CodecFacts.

(** ** The scan loop of [read_hpoon_file] *)

Module LoopFacts.

Lemma scan_step_bind (acc : HarpoonRecord * list line_error)
    (line key v : string) :
  parse_hpoon_line line = inr (key, v) →
  record_get (scan_step acc line).1 key = Some v.
Proof.
  intros Hp. unfold scan_step, record_get. rewrite Hp.
  destruct (decide (key = LAST_MARKED_KEY)); simpl; [reflexivity|].
  apply lookup_insert_eq.
Qed.

Lemma scan_step_other (acc : HarpoonRecord * list line_error)
    (line key : string) :
  ¬ line_key line key →
  record_get (scan_step acc line).1 key = record_get acc.1 key.
Proof.
  intros Hn. unfold scan_step, record_get.
  destruct (parse_hpoon_line line) as [e|[k v]] eqn:Hp; [reflexivity|].
  assert (k ≠ key) by (intros ->; apply Hn; exists v; exact Hp).
  destruct (decide (k = LAST_MARKED_KEY)) as [->|Hk]; simpl.
  - destruct (decide (key = LAST_MARKED_KEY)); [congruence | reflexivity].
  - destruct (decide (key = LAST_MARKED_KEY)); [reflexivity|].
    apply lookup_insert_ne. assumption.
Qed.

Lemma fold_other (post : list string) (key : string)
    (acc : HarpoonRecord * list line_error) :
  Forall (λ l, ¬ line_key l key) post →
  record_get (fold_left scan_step post acc).1 key = record_get acc.1 key.
Proof.
  intros H. revert acc. induction H as [|l post Hl _ IH]; intros acc;
    [reflexivity|].
  simpl. rewrite IH. apply scan_step_other, Hl.
Qed.

(** The last line of a key decides what the record holds under it. *)
Lemma scan_loop_last (pre post : list string) (l key v : string) :
  parse_hpoon_line l = inr (key, v) →
  Forall (λ l', ¬ line_key l' key) post →
  record_get (scan_loop (pre ++ l :: post)).1 key = Some v.
Proof.
  intros Hp Hpost. unfold scan_loop.
  rewrite fold_left_app. simpl. rewrite fold_other by exact Hpost.
  apply scan_step_bind, Hp.
Qed.

Lemma scan_loop_snoc (lines : list string) (l : string) :
  scan_loop (lines ++ [l]) = scan_step (scan_loop lines) l.
Proof. unfold scan_loop. rewrite fold_left_app. reflexivity. Qed.

(** The reserved key never enters the map. *)
Lemma scan_loop_reserved (lines : list string) :
  marks (scan_loop lines).1 !! LAST_MARKED_KEY = None.
Proof.
  induction lines as [|l lines IH] using rev_ind; [apply lookup_empty|].
  rewrite scan_loop_snoc. unfold scan_step.
  destruct (parse_hpoon_line l) as [e|[k v]]; [exact IH|].
  destruct (decide (k = LAST_MARKED_KEY)); simpl; [exact IH|].
  rewrite lookup_insert_ne by assumption. exact IH.
Qed.

(** A key no line parses to is not in the map. *)
Lemma scan_loop_absent (lines : list string) (key : string) :
  Forall (λ l, ¬ line_key l key) lines →
  marks (scan_loop lines).1 !! key = None.
Proof.
  intros H. destruct (decide (key = LAST_MARKED_KEY)) as [->|Hk];
    [apply scan_loop_reserved|].
  pose proof (fold_other lines key (mkRecord EmptyString ∅, []) H) as Hg.
  fold (scan_loop lines) in Hg. unfold record_get in Hg.
  rewrite !decide_False in Hg by assumption. rewrite Hg. apply lookup_empty.
Qed.

(** Without a line of the reserved key, [last_marked] stays empty. *)
Lemma scan_loop_unset (lines : list string) :
  Forall (λ l, ¬ line_key l LAST_MARKED_KEY) lines →
  last_marked (scan_loop lines).1 = EmptyString.
Proof.
  intros H.
  pose proof (fold_other lines _ (mkRecord EmptyString ∅, []) H) as Hg.
  fold (scan_loop lines) in Hg. unfold record_get in Hg.
  rewrite !decide_True in Hg by reflexivity. injection Hg as Hg. exact Hg.
Qed.

(** Every entry of the map was read from a line. *)
Lemma scan_loop_source (lines : list string) (k v : string) :
  marks (scan_loop lines).1 !! k = Some v →
  ∃ l, l ∈ lines ∧ parse_hpoon_line l = inr (k, v) ∧ k ≠ LAST_MARKED_KEY.
Proof.
  induction lines as [|l lines IH] using rev_ind.
  - simpl. rewrite lookup_empty. discriminate.
  - rewrite scan_loop_snoc. unfold scan_step.
    assert (Hold : marks (scan_loop lines).1 !! k = Some v →
              ∃ l0, l0 ∈ lines ++ [l] ∧ parse_hpoon_line l0 = inr (k, v)
                    ∧ k ≠ LAST_MARKED_KEY).
    { intros H. destruct (IH H) as (l0 & Hin & Hp).
      exists l0. split; [apply elem_of_app; left; exact Hin | exact Hp]. }
    destruct (parse_hpoon_line l) as [e|[k' v']] eqn:Hp; [exact Hold|].
    destruct (decide (k' = LAST_MARKED_KEY)); simpl; [exact Hold|].
    destruct (decide (k' = k)) as [->|Hne].
    + rewrite lookup_insert_eq. intros [= ->].
      exists l. split; [apply elem_of_app; right; apply list_elem_of_singleton; reflexivity | auto].
    + rewrite lookup_insert_ne by assumption. exact Hold.
Qed.

Lemma fold_log (lines : list string) (acc : HarpoonRecord * list line_error) :
  (fold_left scan_step lines acc).2 = acc.2 ++ diagnostics lines.
Proof.
  revert acc. induction lines as [|l lines IH]; intros acc.
  - simpl. rewrite app_nil_r. reflexivity.
  - simpl. rewrite IH. unfold scan_step, diagnostics. simpl.
    destruct (parse_hpoon_line l) as [e|[k v]]; simpl.
    + rewrite <- app_assoc. reflexivity.
    + destruct (decide (k = LAST_MARKED_KEY)); reflexivity.
Qed.

Lemma scan_loop_log (lines : list string) :
  (scan_loop lines).2 = diagnostics lines.
Proof. unfold scan_loop. rewrite fold_log. reflexivity. Qed.

(** [load_hpoon] in one piece: the file is made when it is missing,
    every line is looked at, and a scan error ends the process. *)
Lemma load_hpoon_eq (w : world) :
  load_hpoon w =
    let content := default EmptyString (hpoon_file w) in
    (mkWorld (Some content)
       (stderr w ++ diagnostics (Scanner.scan content).1),
     if (Scanner.scan content).2 then Quit
     else Done (scan_loop (Scanner.scan content).1).1).
Proof.
  assert (Hread : ∀ content err,
    read_hpoon_file (mkWorld (Some content) err) =
      (mkWorld (Some content) (err ++ diagnostics (Scanner.scan content).1),
       if (Scanner.scan content).2 then Quit
       else Done (scan_loop (Scanner.scan content).1).1)).
  { intros content err. unfold read_hpoon_file. cbn [hpoon_file stderr].
    destruct (Scanner.scan content) as [lines e].
    rewrite <- scan_loop_log. cbn [fst snd].
    destruct (scan_loop lines) as [data log]. reflexivity. }
  unfold load_hpoon, check_hpoon_file_exists.
  destruct w as [[content|] err]; cbn [hpoon_file stderr default];
    case_bool_decide; try congruence; apply Hread.
Qed.

End LoopFacts.

(** ** What [write_hpoon_file] writes and what is read back *)

Module StoreFacts.
Import Base64 Base64Facts Scanner ScannerFacts CodecFacts LoopFacts.

Lemma non_value_true (v : string) : non_value v = true ↔ v = EmptyString.
Proof. unfold non_value. apply bool_decide_eq_true. Qed.

Lemma non_value_false (v : string) : non_value v = false ↔ v ≠ EmptyString.
Proof. unfold non_value. apply bool_decide_eq_false. Qed.

Lemma write_marks_unlines (kvs : list (string * string)) (file : string) :
  write_marks kvs file
  = file +:+ unlines (entry_line <$> filter has_value kvs).
Proof.
  unfold write_marks. revert file.
  induction kvs as [|kv kvs IH]; intros file.
  - simpl. rewrite append_nil_r. reflexivity.
  - cbn [fold_left]. rewrite IH. clear IH.
    destruct (non_value kv.2) eqn:E.
    + apply non_value_true in E.
      rewrite filter_cons_False by (unfold has_value; auto). reflexivity.
    + apply non_value_false in E.
      rewrite filter_cons_True by exact E.
      cbn [fmap list_fmap unlines fold_right].
      rewrite !append_assoc. reflexivity.
Qed.

Lemma written_unlines (data : HarpoonRecord) (kvs : list (string * string)) :
  last_marked data ≠ EmptyString →
  written data kvs = unlines (written_lines data kvs).
Proof.
  intros Hl. unfold written. apply non_value_false in Hl. rewrite Hl.
  rewrite write_marks_unlines. unfold written_lines.
  cbn [unlines fold_right]. rewrite !append_assoc. reflexivity.
Qed.

Lemma written_empty (data : HarpoonRecord) (kvs : list (string * string)) :
  last_marked data = EmptyString → written data kvs = EmptyString.
Proof.
  intros Hl. unfold written. apply non_value_true in Hl. rewrite Hl.
  reflexivity.
Qed.

Lemma reserved_plain : plain_key LAST_MARKED_KEY.
Proof. split; reflexivity. Qed.

Lemma written_lines_no_LF (data : HarpoonRecord) (kvs : list (string * string)) :
  Forall (λ kv, plain_key kv.1) kvs →
  Forall (λ l, has_byte LF l = false) (written_lines data kvs).
Proof.
  intros Hk. constructor.
  - apply create_no_LF, reserved_plain.
  - apply Forall_fmap. apply Forall_forall. intros kv Hin.
    apply list_elem_of_filter in Hin as [_ Hin].
    rewrite Forall_forall in Hk. apply create_no_LF, (Hk kv Hin).
Qed.

Lemma dropCR_written_lines (data : HarpoonRecord) (kvs : list (string * string)) :
  dropCR <$> written_lines data kvs = written_lines data kvs.
Proof.
  unfold written_lines. cbn [fmap list_fmap]. rewrite dropCR_create. f_equal.
  induction (filter has_value kvs) as [|kv l IH]; [reflexivity|].
  cbn [fmap list_fmap]. unfold entry_line at 1 3. rewrite dropCR_create.
  f_equal. exact IH.
Qed.

(** Reading a written file: the loop sees the written lines, unless one
    of them is too long for the scanner. *)
Lemma load_written (data : HarpoonRecord) (kvs : list (string * string))
    (err : list line_error) :
  last_marked data ≠ EmptyString →
  Forall (λ kv, plain_key kv.1) kvs →
  (load_hpoon (mkWorld (Some (written data kvs)) err)).2 =
    if bool_decide (Forall fits (written_lines data kvs))
    then Done (scan_loop (written_lines data kvs)).1
    else Quit.
Proof.
  intros Hl Hk. rewrite load_hpoon_eq. cbn [hpoon_file snd]. unfold default, id.
  cbn [from_option].
  rewrite written_unlines by exact Hl.
  pose proof (written_lines_no_LF data kvs Hk) as Hlf.
  case_bool_decide as Hfit.
  - rewrite scan_unlines by assumption. cbn [fst snd].
    rewrite dropCR_written_lines. reflexivity.
  - rewrite scan_unlines_too_long by assumption. reflexivity.
Qed.

(** The lines written for entries of other keys do not parse to [key]. *)
Lemma entries_other_key (post : list (string * string)) (key : string) :
  Forall (λ kv, plain_key kv.1 ∧ kv.1 ≠ key) post →
  Forall (λ l, ¬ line_key l key) (entry_line <$> post).
Proof.
  intros H. apply Forall_fmap. eapply Forall_impl; [exact H|].
  intros [k v] [[Hsep _] Hne] [v' Hp]. simpl in *.
  apply parse_create_inv in Hp as (Hk & _); [|exact Hsep].
  simpl in Hk. congruence.
Qed.

(** After the reload, an entry whose line parses is found under its key. *)
Lemma reload_entry (data : HarpoonRecord) (kvs : list (string * string))
    (x p : string) :
  Forall (λ kv, plain_key kv.1) kvs → NoDup kvs.*1 →
  (x, p) ∈ kvs → p ≠ EmptyString →
  has_byte KV_SEPERATOR (EncodeToString p) = false →
  record_get (scan_loop (written_lines data kvs)).1 x = Some p.
Proof.
  intros Hplain Hnd Hin Hp Hsep.
  apply list_elem_of_split in Hin as (pre & post & ->).
  apply Forall_app in Hplain as [_ Hplain].
  apply Forall_cons in Hplain as [[Hx _] Hpost]. simpl in Hx.
  rewrite fmap_app, fmap_cons in Hnd.
  apply NoDup_app in Hnd as (_ & _ & Hnd).
  apply NoDup_cons in Hnd as [Hnotin _]. simpl in Hnotin.
  unfold written_lines.
  rewrite filter_app, filter_cons_True by exact Hp.
  rewrite fmap_app, fmap_cons, app_comm_cons.
  apply scan_loop_last.
  - apply parse_create; assumption.
  - apply entries_other_key. apply Forall_forall. intros kv Hkv.
    apply list_elem_of_filter in Hkv as [_ Hkv]. split.
    + rewrite Forall_forall in Hpost. apply Hpost, Hkv.
    + intros Heq. apply Hnotin. rewrite <- Heq.
      apply list_elem_of_fmap_2, Hkv.
Qed.

(** After the reload, [last_marked] is the path that was written, also
    when an entry of the map carries the reserved key with that path. *)
Lemma reload_last (data : HarpoonRecord) (kvs : list (string * string)) :
  Forall (λ kv, plain_key kv.1) kvs → NoDup kvs.*1 →
  last_marked data ≠ EmptyString →
  has_byte KV_SEPERATOR (EncodeToString (last_marked data)) = false →
  (∀ v, (LAST_MARKED_KEY, v) ∈ kvs → v = last_marked data) →
  last_marked (scan_loop (written_lines data kvs)).1 = last_marked data.
Proof.
  intros Hplain Hnd Hl Hsep Hres.
  enough (record_get (scan_loop (written_lines data kvs)).1 LAST_MARKED_KEY
          = Some (last_marked data)) as H.
  { unfold record_get in H. rewrite decide_True in H by reflexivity.
    congruence. }
  destruct (decide (LAST_MARKED_KEY ∈ kvs.*1)) as [Hin|Hnin].
  - apply list_elem_of_fmap in Hin as ([k v] & Hk & Hin). simpl in Hk. subst k.
    pose proof (Hres v Hin) as ->.
    apply reload_entry; assumption.
  - unfold written_lines.
    apply (scan_loop_last [] _ _ LAST_MARKED_KEY).
    + apply parse_create; [reflexivity | exact Hsep].
    + apply entries_other_key. apply Forall_forall. intros kv Hkv.
      apply list_elem_of_filter in Hkv as [_ Hkv]. split.
      * rewrite Forall_forall in Hplain. apply Hplain, Hkv.
      * intros Heq. apply Hnin. rewrite <- Heq.
        apply list_elem_of_fmap_2, Hkv.
Qed.

(** What a loaded record can hold: keys without separator and line
    feed, and never the reserved key. *)
Lemma loaded_plain (w w1 : world) (data : HarpoonRecord) :
  load_hpoon w = (w1, Done data) →
  plain_keys (marks data) ∧ marks data !! LAST_MARKED_KEY = None.
Proof.
  rewrite load_hpoon_eq. cbn zeta.
  set (content := default EmptyString (hpoon_file w)).
  destruct (scan content).2; [discriminate|]. intros [= _ <-]. split.
  - intros k v Hkv. apply scan_loop_source in Hkv as (l & Hin & Hp & _).
    destruct (parse_key _ _ _ Hp) as [Hsep Hsub]. split; [exact Hsep|].
    apply Hsub. pose proof (scan_no_LF content) as Hlf.
    rewrite Forall_forall in Hlf. apply Hlf, Hin.
  - apply scan_loop_reserved.
Qed.

Lemma plain_keys_insert (m : gmap string string) (x p : string) :
  plain_keys m → plain_key x → plain_keys (<[x := p]> m).
Proof.
  intros Hm Hx k v. destruct (decide (x = k)) as [->|Hne].
  - intros _. exact Hx.
  - rewrite lookup_insert_ne by exact Hne. apply Hm.
Qed.

Lemma range_plain (m : gmap string string) (kvs : list (string * string)) :
  plain_keys m → kvs ≡ₚ map_to_list m →
  Forall (λ kv, plain_key kv.1) kvs ∧ NoDup kvs.*1 ∧
  ∀ k v, (k, v) ∈ kvs ↔ m !! k = Some v.
Proof.
  intros Hm Hperm. repeat split.
  - apply Forall_forall. intros [k v] Hin. rewrite Hperm in Hin.
    apply elem_of_map_to_list in Hin. exact (Hm k v Hin).
  - rewrite Hperm. apply NoDup_fst_map_to_list.
  - intros Hin. rewrite Hperm in Hin. apply elem_of_map_to_list, Hin.
  - intros Hin. rewrite Hperm. apply elem_of_map_to_list, Hin.
Qed.

Lemma get_mark_eq (name : option string) (w : world) :
  (hpoon_get_mark name w).2 =
    match (load_hpoon w).2 with
    | Quit => Quit
    | Done data =>
        Done match name with
             | None => inr (last_marked data)
             | Some n =>
                 match marks data !! n with
                 | Some value => inr value
                 | None => inl (MarkDoesNotExist n)
                 end
             end
    end.
Proof.
  unfold hpoon_get_mark. destruct (load_hpoon w) as [w1 [data|]]; reflexivity.
Qed.

End StoreFacts.

(** ** The commands *)

Module CommandFacts.
Import Base64 Scanner ScannerFacts CodecFacts LoopFacts StoreFacts.

(** What [hpoon_set_mark] leaves behind. *)
Lemma set_mark_inv (p : string) (name : option string) (w w' : world) :
  hpoon_set_mark p name w w' →
  ∃ w1 data kvs,
    load_hpoon w = (w1, Done data) ∧
    kvs ≡ₚ map_to_list (marks (set_in_record p name data)) ∧
    w' = mkWorld (Some (written (set_in_record p name data) kvs)) (stderr w1).
Proof.
  intros (w1 & data & Hload & kvs & Hperm & ->). eauto 10.
Qed.

(** [hpoon_set_mark] goes through whenever the load does. *)
Lemma set_mark_total (p : string) (name : option string) (w : world) :
  (load_hpoon w).2 ≠ Quit → ∃ w', hpoon_set_mark p name w w'.
Proof.
  destruct (load_hpoon w) as [w1 [data|]] eqn:Hload; [|contradiction].
  intros _. eexists. exists w1, data. split; [exact Hload|].
  exists (map_to_list (marks (set_in_record p name data))).
  split; reflexivity.
Qed.

Lemma load_empty (err : list line_error) :
  (load_hpoon (mkWorld (Some EmptyString) err)).2
  = Done (mkRecord EmptyString ∅).
Proof. rewrite load_hpoon_eq. reflexivity. Qed.

(** The record read back after [hpoon_set_mark], when the scanner gets
    through the file. *)
Lemma set_mark_reload (p : string) (name : option string) (w w' : world) :
  hpoon_set_mark p name w w' →
  has_byte KV_SEPERATOR (EncodeToString p) = false →
  (∀ x, name = Some x → plain_key x) →
  ∀ data', (load_hpoon w').2 = Done data' →
    last_marked data' = p ∧
    ∀ x, name = Some x → p ≠ EmptyString → record_get data' x = Some p.
Proof.
  intros Hset Hsep Hname data' Hload.
  apply set_mark_inv in Hset as (w1 & data & kvs & Hl & Hperm & ->).
  apply loaded_plain in Hl as [Hplain Hres].
  set (data2 := set_in_record p name data) in *.
  destruct (decide (p = EmptyString)) as [->|Hp].
  { rewrite written_empty, load_empty in Hload by reflexivity.
    injection Hload as <-. split; [reflexivity | congruence]. }
  assert (Hplain2 : plain_keys (marks data2)).
  { unfold data2, set_in_record. destruct name as [x|]; simpl; [|exact Hplain].
    apply plain_keys_insert; [exact Hplain | apply Hname; reflexivity]. }
  destruct (range_plain _ _ Hplain2 Hperm) as (Hk & Hnd & Hin).
  rewrite load_written in Hload by assumption.
  case_bool_decide; [|discriminate]. injection Hload as <-. split.
  - apply (reload_last data2); try assumption.
    intros v Hv. apply Hin in Hv. unfold data2, set_in_record in Hv.
    destruct name as [x|]; simpl in Hv.
    + destruct (decide (x = LAST_MARKED_KEY)) as [->|Hne].
      * rewrite lookup_insert_eq in Hv. injection Hv as <-. reflexivity.
      * rewrite lookup_insert_ne in Hv by exact Hne. congruence.
    + congruence.
  - intros x -> _. apply reload_entry; try assumption.
    apply Hin. unfold data2, set_in_record. simpl. apply lookup_insert_eq.
Qed.

End CommandFacts.

(** ** Line lengths: when the reload gets through *)

Module LengthFacts.
Import Base64 Base64Facts Scanner ScannerFacts CodecFacts LoopFacts
  StoreFacts CommandFacts.

Lemma string_ind4 (P : string → Prop) :
  P EmptyString →
  (∀ a, P (String a EmptyString)) →
  (∀ a b, P (String a (String b EmptyString))) →
  (∀ a b c, P (String a (String b (String c EmptyString)))) →
  (∀ a b c d s, P s → P (String a (String b (String c (String d s))))) →
  ∀ s, P s.
Proof.
  intros H0 H1 H2 H3 H4 s.
  enough (P s ∧ (∀ a, P (String a s)) ∧ (∀ a b, P (String a (String b s)))
          ∧ (∀ a b c, P (String a (String b (String c s)))))
    as [H _]; [exact H|].
  induction s as [|c s (IH0 & IH1 & IH2 & IH3)]; [auto|].
  repeat split; auto.
Qed.

Lemma strlen_encode_3 (b0 b1 b2 : ascii) (s : string) :
  strlen (EncodeToString (String b0 (String b1 (String b2 s))))
  = 4 + strlen (EncodeToString s).
Proof. cbn [EncodeToString strlen]. lia. Qed.

Lemma strlen_strip_newlines (s : string) :
  strlen (strip_newlines s) <= strlen s.
Proof.
  induction s as [|c s IH]; cbn [strip_newlines strlen]; [lia|].
  destruct (is_newline c); cbn [strlen]; lia.
Qed.

(** The encoding of what a quantum-by-quantum decoding gave is not
    longer than what was decoded. *)
Lemma strlen_decode_quanta (s out : string) :
  decode_quanta s = Some out → strlen (EncodeToString out) <= strlen s.
Proof.
  revert out.
  induction s as [|a|a b|a b c|a b c d s IH] using string_ind4; intros out;
    try (cbn [decode_quanta]; discriminate).
  - intros [= <-]. reflexivity.
  - cbn [decode_quanta].
    destruct (valid a && valid b); [|discriminate].
    destruct (valid c).
    + destruct (valid d).
      * destruct (decode_quanta s) as [out'|]; [|discriminate].
        intros [= <-]. rewrite strlen_encode_3.
        specialize (IH out' eq_refl). cbn [strlen]. lia.
      * destruct (Ascii.eqb d padChar); [|discriminate].
        destruct s; [|discriminate]. intros [= <-]. cbn [strlen EncodeToString]. lia.
    + destruct (Ascii.eqb c padChar && Ascii.eqb d padChar); [|discriminate].
      destruct s; [|discriminate]. intros [= <-]. cbn [strlen EncodeToString]. lia.
Qed.

Lemma strlen_DecodeString (value v : string) :
  DecodeString value = Some v → strlen (EncodeToString v) <= strlen value.
Proof.
  unfold DecodeString. intros H. apply strlen_decode_quanta in H.
  pose proof (strlen_strip_newlines value). lia.
Qed.

(** Two parts: the string is the first, the separator and the second. *)
Lemma split_on_two (sep : ascii) (s a b : string) :
  split_on sep s = [a; b] → s = a +:+ String sep b.
Proof.
  revert a. induction s as [|c s IH]; intros a; [discriminate|].
  cbn [split_on]. destruct (Ascii.eqb_spec c sep) as [->|Hc].
  - intros [= <- Hs]. pose proof (split_on_single _ _ _ Hs) as Hn.
    rewrite split_on_no_sep in Hs by exact Hn. injection Hs as ->. reflexivity.
  - destruct (split_on sep s) as [|p ps]; [discriminate|].
    intros [= <- ->]. rewrite (IH p eq_refl). reflexivity.
Qed.

Lemma parse_inv (line k v : string) :
  parse_hpoon_line line = inr (k, v) →
  ∃ value, line = k +:+ String KV_SEPERATOR value ∧
           DecodeString value = Some v.
Proof.
  unfold parse_hpoon_line.
  destruct (split_on KV_SEPERATOR line) as [|p [|q [|r ps]]] eqn:E;
    try discriminate.
  destruct (DecodeString q) as [d|] eqn:Hd; [|discriminate].
  intros [= <- <-]. exists q. split; [apply split_on_two, E | exact Hd].
Qed.

Lemma strlen_dropCR (s : string) : strlen (dropCR s) <= strlen s.
Proof.
  induction s as [|c s IH]; [reflexivity|].
  destruct s as [|d s].
  - cbn [dropCR]. destruct (Ascii.eqb c CR); cbn [strlen]; lia.
  - change (dropCR (String c (String d s)))
      with (String c (dropCR (String d s))).
    cbn [strlen] in *. lia.
Qed.

Lemma tokens_fit (segs : list string) : Forall fits (tokens segs).1.
Proof.
  induction segs as [|p segs IH]; [constructor|].
  destruct segs as [|q segs].
  - cbn [tokens]. case_bool_decide; [constructor|].
    destruct (Z.ltb_spec (strlen p) MaxScanTokenSize); simpl; [|constructor].
    constructor; [|constructor]. unfold fits.
    pose proof (strlen_dropCR p). lia.
  - change (tokens (p :: q :: segs))
      with (if strlen p <? MaxScanTokenSize
            then let (ts, e) := tokens (q :: segs) in (dropCR p :: ts, e)
            else ([], true)).
    destruct (Z.ltb_spec (strlen p) MaxScanTokenSize); [|constructor].
    destruct (tokens (q :: segs)) as [ts e]. simpl in *.
    constructor; [|exact IH]. unfold fits.
    pose proof (strlen_dropCR p). lia.
Qed.

(** The scan ends without [ErrTooLong] when every segment fits. *)
Lemma tokens_ok (segs : list string) :
  Forall fits segs → (tokens segs).2 = false.
Proof.
  induction 1 as [|p segs Hp Hsegs IH]; [reflexivity|].
  destruct segs as [|q segs].
  - cbn [tokens]. case_bool_decide; [reflexivity|].
    destruct (Z.ltb_spec (strlen p) MaxScanTokenSize); [reflexivity|].
    unfold fits in Hp. lia.
  - change (tokens (p :: q :: segs))
      with (if strlen p <? MaxScanTokenSize
            then let (ts, e) := tokens (q :: segs) in (dropCR p :: ts, e)
            else ([], true)).
    destruct (Z.ltb_spec (strlen p) MaxScanTokenSize);
      [|unfold fits in Hp; lia].
    destruct (tokens (q :: segs)) as [ts e]. exact IH.
Qed.

Lemma strlen_create (key value : string) :
  strlen (create_hpoon_line key value)
  = strlen key + 1 + strlen (EncodeToString value).
Proof.
  unfold create_hpoon_line. rewrite strlen_app. cbn [strlen]. lia.
Qed.

(** Writing a loaded entry again gives a line that fits. *)
Lemma loaded_fits (w w1 : world) (data : HarpoonRecord) (k v : string) :
  load_hpoon w = (w1, Done data) →
  marks data !! k = Some v → fits (create_hpoon_line k v).
Proof.
  rewrite load_hpoon_eq. cbn zeta.
  set (content := default EmptyString (hpoon_file w)).
  destruct (scan content).2; [discriminate|]. intros [= _ <-] Hkv.
  apply scan_loop_source in Hkv as (l & Hin & Hp & _).
  pose proof (tokens_fit (split_on LF content)) as Hfit.
  rewrite Forall_forall in Hfit. specialize (Hfit l Hin).
  apply parse_inv in Hp as (value & -> & Hd).
  apply strlen_DecodeString in Hd.
  unfold fits in *. rewrite strlen_create.
  rewrite strlen_app in Hfit. cbn [strlen] in Hfit. lia.
Qed.

(** After [hpoon_set_mark], the next load returns when the lines of the
    new mark fit the scanner. *)
Lemma reload_returns (p : string) (name : option string) (w w' : world) :
  hpoon_set_mark p name w w' →
  fits (create_hpoon_line LAST_MARKED_KEY p) →
  (∀ x, name = Some x → plain_key x ∧ fits (create_hpoon_line x p)) →
  ∃ data', (load_hpoon w').2 = Done data'.
Proof.
  intros Hset Hfp Hname.
  apply set_mark_inv in Hset as (w1 & data & kvs & Hl & Hperm & ->).
  pose proof (λ k v, loaded_fits _ _ _ k v Hl) as Hold.
  apply loaded_plain in Hl as [Hplain Hres].
  set (data2 := set_in_record p name data) in *.
  destruct (decide (p = EmptyString)) as [->|Hp].
  { rewrite written_empty, load_empty by reflexivity. eauto. }
  assert (Hplain2 : plain_keys (marks data2)).
  { unfold data2, set_in_record. destruct name as [x|]; simpl; [|exact Hplain].
    apply plain_keys_insert; [exact Hplain | apply Hname; reflexivity]. }
  destruct (range_plain _ _ Hplain2 Hperm) as (Hk & Hnd & Hin).
  rewrite load_written by assumption.
  rewrite bool_decide_eq_true_2; [eauto|].
  constructor; [exact Hfp|].
  apply Forall_fmap, Forall_forall. intros [k v] Hkv.
  apply list_elem_of_filter in Hkv as [_ Hkv]. apply Hin in Hkv.
  unfold entry_line. simpl. unfold data2, set_in_record in Hkv.
  destruct name as [x|]; simpl in Hkv; [|exact (Hold k v Hkv)].
  destruct (decide (x = k)) as [->|Hne].
  - rewrite lookup_insert_eq in Hkv. injection Hkv as <-.
    apply Hname. reflexivity.
  - rewrite lookup_insert_ne in Hkv by exact Hne. exact (Hold k v Hkv).
Qed.

End LengthFacts.

(** ** The properties of the specification *)

Module Properties.
Import Base64 Base64Facts Scanner ScannerFacts CodecFacts LoopFacts
  StoreFacts CommandFacts LengthFacts.

Lemma set_mark_run_ok (p : string) (name : option string) (w : world) :
  (load_hpoon w).2 ≠ Quit → hpoon_set_mark p name w (set_mark_run p name w).
Proof.
  unfold set_mark_run.
  destruct (load_hpoon w) as [w1 [data|]] eqn:Hload; [|contradiction].
  intros _. exists w1, data. split; [exact Hload|].
  exists (map_to_list (marks (set_in_record p name data))).
  split; reflexivity.
Qed.

(** C1: the round trip of the line codec.  The separator is a digit of
    the base64 alphabet, so the line of the path [/tmp/?] under the key
    [home] has two separators and does not parse: the code does not
    give back [(home, /tmp/?)]. *)
Theorem C1_roundtrip_fails_on_slash_digit :
  encode 63 = KV_SEPERATOR ∧
  create_hpoon_line "home" "/tmp/?" = "home/L3RtcC8/" ∧
  parse_hpoon_line (create_hpoon_line "home" "/tmp/?")
  = inl (InvalidFormat "home/L3RtcC8/").
Proof. repeat split; vm_compute; reflexivity. Qed.

(** The same happens under [/tmp] for a file name that starts with a
    letter of two bytes in UTF-8. *)
Example roundtrip_fails_utf8 :
  has_byte KV_SEPERATOR (EncodeToString "/tmp/é") = true ∧
  parse_hpoon_line (create_hpoon_line "home" "/tmp/é")
  = inl (InvalidFormat (create_hpoon_line "home" "/tmp/é")).
Proof. split; vm_compute; reflexivity. Qed.

(** C2, as it stands, fails for the name [_]: after
    [set_mark("/tmp", "_")] on a fresh store, [get_mark("_")] finds no
    mark. *)
Lemma C2_counterexample :
  hpoon_set_mark "/tmp" (Some "_") fresh (set_mark_run "/tmp" (Some "_") fresh) ∧
  (hpoon_get_mark (Some "_") (set_mark_run "/tmp" (Some "_") fresh)).2
  = Done (inl (MarkDoesNotExist "_")).
Proof.
  split.
  - apply set_mark_run_ok. vm_compute. discriminate.
  - vm_compute. reflexivity.
Qed.

(** The other ways in which a mark does not come back: a path whose
    encoding holds the separator, an empty path under a name, and a name
    that holds the separator. *)
Example set_get_slash_digit :
  (hpoon_get_mark None (set_mark_run "/tmp/?" None fresh)).2
  = Done (inr EmptyString).
Proof. vm_compute. reflexivity. Qed.

Example set_get_empty_path :
  (hpoon_get_mark (Some "home") (set_mark_run EmptyString (Some "home") fresh)).2
  = Done (inl (MarkDoesNotExist "home")).
Proof. vm_compute. reflexivity. Qed.

Example set_get_name_with_separator :
  (hpoon_get_mark (Some "a/b") (set_mark_run "/tmp" (Some "a/b") fresh)).2
  = Done (inl (MarkDoesNotExist "a/b")).
Proof. vm_compute. reflexivity. Qed.

(** A path whose line the scanner cannot hold ends every later load. *)
Example set_get_long_path :
  has_byte KV_SEPERATOR (EncodeToString long_path) = false ∧
  (hpoon_get_mark None (set_mark_run long_path None fresh)).2 = Quit.
Proof. split; vm_compute; reflexivity. Qed.

(** C2, amended: set-then-get.  For a path whose base64 encoding holds
    no separator and whose reserved line fits the scanner, after
    [set_mark(p, nil)] a [get_mark(nil)] returns [p]; and for a name
    that is not the reserved key and holds neither separator nor line
    feed, with a non-empty path whose line fits, after [set_mark(p, x)]
    both [get_mark(x)] and [get_mark(nil)] return [p]. *)
Theorem C2_set_then_get (p : string) (name : option string) (w w' : world) :
  has_byte KV_SEPERATOR (EncodeToString p) = false →
  fits (create_hpoon_line LAST_MARKED_KEY p) →
  (∀ x, name = Some x →
     x ≠ LAST_MARKED_KEY ∧ plain_key x ∧ p ≠ EmptyString ∧
     fits (create_hpoon_line x p)) →
  hpoon_set_mark p name w w' →
  (hpoon_get_mark None w').2 = Done (inr p) ∧
  ∀ x, name = Some x → (hpoon_get_mark (Some x) w').2 = Done (inr p).
Proof.
  intros Hsep Hfit Hname Hset.
  destruct (reload_returns p name w w' Hset Hfit) as [data' Hload].
  { intros x Hx. destruct (Hname x Hx) as (_ & ? & _ & ?). auto. }
  destruct (set_mark_reload p name w w' Hset Hsep) with (data' := data')
    as [Hlast Hentry]; [|exact Hload|].
  { intros x Hx. apply (Hname x Hx). }
  split; [rewrite get_mark_eq, Hload; congruence|].
  intros x Hx. destruct (Hname x Hx) as (Hres & _ & Hp & _).
  specialize (Hentry x Hx Hp). unfold record_get in Hentry.
  rewrite decide_False in Hentry by exact Hres.
  rewrite get_mark_eq, Hload, Hentry. reflexivity.
Qed.

Lemma C2_set_then_get_witness :
  (hpoon_get_mark None (set_mark_run "/tmp" (Some "home") fresh)).2
  = Done (inr "/tmp") ∧
  (hpoon_get_mark (Some "home") (set_mark_run "/tmp" (Some "home") fresh)).2
  = Done (inr "/tmp").
Proof.
  destruct (C2_set_then_get "/tmp" (Some "home") fresh
              (set_mark_run "/tmp" (Some "home") fresh)) as [Hlast Hnamed].
  - vm_compute. reflexivity.
  - vm_compute. reflexivity.
  - intros x [= <-]. repeat split; try (vm_compute; reflexivity); discriminate.
  - apply set_mark_run_ok. vm_compute. discriminate.
  - split; [exact Hlast | exact (Hnamed "home" eq_refl)].
Defined.

(** C3: the empty save.  For every record whose [last_marked] is empty,
    [save] leaves an empty file whatever the map holds, and the next
    load gives the empty record. *)
Theorem C3_empty_save_erases (data : HarpoonRecord) (w : world) :
  last_marked data = EmptyString →
  (∃ w', save_hpoon data w w') ∧
  ∀ w', save_hpoon data w w' →
    hpoon_file w' = Some EmptyString ∧
    (load_hpoon w').2 = Done (mkRecord EmptyString ∅).
Proof.
  intros Hl. split.
  - eexists. exists (map_to_list (marks data)). split; reflexivity.
  - intros w' (kvs & _ & ->). rewrite written_empty by exact Hl.
    split; [reflexivity | apply load_empty].
Qed.

Lemma C3_empty_save_erases_witness :
  save_hpoon (mkRecord EmptyString {["home" := "/tmp"]})
    (mkWorld (Some ("home/L3RtcA==" +:+ nl)) [])
    (mkWorld (Some EmptyString) []) ∧
  (load_hpoon (mkWorld (Some EmptyString) [])).2
  = Done (mkRecord EmptyString ∅).
Proof.
  assert (Hsave : save_hpoon (mkRecord EmptyString {["home" := "/tmp"]})
                    (mkWorld (Some ("home/L3RtcA==" +:+ nl)) [])
                    (mkWorld (Some EmptyString) [])).
  { exists [("home", "/tmp")]. split; [|reflexivity].
    cbn [marks]. rewrite map_to_list_singleton. reflexivity. }
  split; [exact Hsave|].
  apply (C3_empty_save_erases (mkRecord EmptyString {["home" := "/tmp"]})
           (mkWorld (Some ("home/L3RtcA==" +:+ nl)) []) eq_refl).
  exact Hsave.
Defined.

(** C4, as it stands, fails when the bad line is longer than the
    scanner's buffer: the file holds a well-formed line and a line
    without separator, and the load ends the process. *)
Lemma C4_counterexample :
  long_file = "home/L3RtcA==" +:+ nl +:+ long_line +:+ nl ∧
  parse_hpoon_line "home/L3RtcA==" = inr ("home", "/tmp") ∧
  parse_hpoon_line long_line = inl (InvalidFormat long_line) ∧
  (load_hpoon (mkWorld (Some long_file) [])).2 = Quit.
Proof. repeat split; vm_compute; reflexivity. Qed.

(** Lines found to fit by computing their lengths. *)
Lemma fits_checked (ls : list string) :
  forallb (λ l, strlen l <? MaxScanTokenSize) ls = true → Forall fits ls.
Proof.
  intros H. apply Forall_forall. intros l Hl.
  rewrite forallb_forall in H. apply Z.ltb_lt, H, list_elem_of_In, Hl.
Qed.

(** Among the lines there is a last one that parses to [key], when any
    does. *)
Lemma last_line_of_key (lines : list string) (l key v : string) :
  l ∈ lines → parse_hpoon_line l = inr (key, v) →
  ∃ pre l' post v',
    lines = pre ++ l' :: post ∧ parse_hpoon_line l' = inr (key, v') ∧
    Forall (λ l0, ¬ line_key l0 key) post.
Proof.
  induction lines as [|a lines IH] using rev_ind; intros Hin Hp.
  - inversion Hin.
  - destruct (parse_hpoon_line a) as [e|[k' v']] eqn:Ha.
    + apply elem_of_app in Hin as [Hin|Hin];
        [|apply list_elem_of_singleton in Hin; congruence].
      destruct (IH Hin Hp) as (pre & l' & post & v0 & -> & Hl' & Hpost).
      exists pre, l', (post ++ [a]), v0.
      rewrite <- app_assoc. split; [reflexivity|]. split; [exact Hl'|].
      apply Forall_app. split; [exact Hpost|].
      constructor; [|constructor]. intros [v1 H1]. congruence.
    + destruct (decide (k' = key)) as [->|Hne].
      * exists lines, a, [], v'. repeat split; [exact Ha | constructor].
      * apply elem_of_app in Hin as [Hin|Hin];
          [|apply list_elem_of_singleton in Hin; congruence].
        destruct (IH Hin Hp) as (pre & l' & post & v0 & -> & Hl' & Hpost).
        exists pre, l', (post ++ [a]), v0.
        rewrite <- app_assoc. split; [reflexivity|]. split; [exact Hl'|].
        apply Forall_app. split; [exact Hpost|].
        constructor; [|constructor]. intros [v1 H1]. congruence.
Qed.

(** C4, amended: corruption tolerance.  For every store file in which
    no line is longer than the scanner's buffer, the load returns a
    record; every line that does not parse adds its diagnostic to
    standard error and nothing else; and every key decoded from a
    well-formed line is held by the record, with the value decoded from
    the last well-formed line of that key. *)
Theorem C4_corruption_tolerance (w : world) (content : string) :
  content = default EmptyString (hpoon_file w) →
  Forall fits (split_on LF content) →
  ∃ data,
    load_hpoon w =
      (mkWorld (Some content) (stderr w ++ diagnostics (scan content).1),
       Done data) ∧
    (∀ l e, l ∈ (scan content).1 → parse_hpoon_line l = inl e →
       e ∈ diagnostics (scan content).1) ∧
    (∀ l key v, l ∈ (scan content).1 → parse_hpoon_line l = inr (key, v) →
       ∃ pre l' post v',
         (scan content).1 = pre ++ l' :: post ∧
         parse_hpoon_line l' = inr (key, v') ∧
         Forall (λ l0, ¬ line_key l0 key) post ∧
         (key = LAST_MARKED_KEY → last_marked data = v') ∧
         (key ≠ LAST_MARKED_KEY → marks data !! key = Some v')).
Proof.
  intros -> Hfit. rewrite load_hpoon_eq. cbn zeta.
  set (content := default EmptyString (hpoon_file w)) in *.
  unfold scan at 2. rewrite (tokens_ok _ Hfit).
  eexists. split; [reflexivity|]. split.
  - intros l e Hin Hp. unfold diagnostics. apply list_elem_of_omap.
    exists l. rewrite Hp. auto.
  - intros l key v Hin Hp.
    destruct (last_line_of_key _ _ _ _ Hin Hp)
      as (pre & l' & post & v' & Heq & Hl' & Hpost).
    exists pre, l', post, v'.
    split; [exact Heq|]. split; [exact Hl'|]. split; [exact Hpost|].
    pose proof (scan_loop_last pre post l' key v' Hl' Hpost) as H.
    rewrite <- Heq in H. unfold record_get in H. split; intros Hk.
    + rewrite decide_True in H by exact Hk. congruence.
    + rewrite decide_False in H by exact Hk. exact H.
Qed.

Lemma C4_corruption_tolerance_witness :
  ∃ data,
    load_hpoon (mkWorld (Some torn_file) []) =
      (mkWorld (Some torn_file) ([] ++ diagnostics (scan torn_file).1),
       Done data) ∧
    (∀ l e, l ∈ (scan torn_file).1 → parse_hpoon_line l = inl e →
       e ∈ diagnostics (scan torn_file).1) ∧
    (∀ l key v, l ∈ (scan torn_file).1 → parse_hpoon_line l = inr (key, v) →
       ∃ pre l' post v',
         (scan torn_file).1 = pre ++ l' :: post ∧
         parse_hpoon_line l' = inr (key, v') ∧
         Forall (λ l0, ¬ line_key l0 key) post ∧
         (key = LAST_MARKED_KEY → last_marked data = v') ∧
         (key ≠ LAST_MARKED_KEY → marks data !! key = Some v')).
Proof.
  apply (C4_corruption_tolerance (mkWorld (Some torn_file) []) torn_file).
  - reflexivity.
  - apply fits_checked. vm_compute. reflexivity.
Defined.

Example torn_file_loads :
  load_hpoon (mkWorld (Some torn_file) [])
  = (mkWorld (Some torn_file) [InvalidFormat "garbage"; CorruptInput "?"],
     Done (mkRecord EmptyString {["home" := "/tmp"]})).
Proof. vm_compute. reflexivity. Qed.

(** C5: last occurrence wins.  When the scanner gives the lines of the
    file, and [l] is the last of them that parses to [key], the load
    returns a record that holds the value of [l] under that key: in
    [last_marked] for the reserved key, in the map for a name. *)
Theorem C5_last_occurrence_wins (w : world) (pre post : list string)
    (l key v : string) :
  scan (default EmptyString (hpoon_file w)) = (pre ++ l :: post, false) →
  parse_hpoon_line l = inr (key, v) →
  Forall (λ l', ¬ line_key l' key) post →
  ∃ data, (load_hpoon w).2 = Done data ∧
          (key = LAST_MARKED_KEY → last_marked data = v) ∧
          (key ≠ LAST_MARKED_KEY → marks data !! key = Some v).
Proof.
  intros Hscan Hp Hpost. rewrite load_hpoon_eq. cbn zeta. rewrite Hscan.
  eexists. split; [reflexivity|]. cbn [fst].
  pose proof (scan_loop_last pre post l key v Hp Hpost) as H.
  unfold record_get in H. split; intros Hk.
  - rewrite decide_True in H by exact Hk. congruence.
  - rewrite decide_False in H by exact Hk. exact H.
Qed.

Lemma C5_last_occurrence_wins_witness :
  ∃ data, (load_hpoon (mkWorld (Some twice_file) [])).2 = Done data ∧
          ("a" = LAST_MARKED_KEY → last_marked data = "B") ∧
          ("a" ≠ LAST_MARKED_KEY → marks data !! "a" = Some "B").
Proof.
  apply (C5_last_occurrence_wins (mkWorld (Some twice_file) [])
           ["a/QQ=="; "_/L3g="] ["b/Qw=="] "a/Qg==" "a" "B").
  - vm_compute. reflexivity.
  - vm_compute. reflexivity.
  - constructor; [|constructor]. intros [v' H]. vm_compute in H. discriminate.
Defined.

(** C6, as it stands, fails for a store whose file holds a line the
    scanner cannot hold: [get_mark(nil)] ends the process instead of
    returning [last_marked]. *)
Lemma C6_counterexample :
  (hpoon_get_mark None (mkWorld (Some long_file) [])).2 = Quit.
Proof. vm_compute. reflexivity. Qed.

(** C6, amended: the contract of [get_mark].  For every store whose
    file holds no line longer than the scanner's buffer, the load
    returns a record; [get_mark(nil)] returns its [last_marked] without
    an error, which is the empty string when no line of the file sets
    it; and [get_mark(name)] returns [marks[name]] when the map holds
    the name and the not-found error exactly when it does not. *)
Theorem C6_get_mark_contract (w : world) :
  Forall fits (split_on LF (default EmptyString (hpoon_file w))) →
  ∃ w1 data,
    load_hpoon w = (w1, Done data) ∧
    hpoon_get_mark None w = (w1, Done (inr (last_marked data))) ∧
    (Forall (λ l, ¬ line_key l LAST_MARKED_KEY)
       (scan (default EmptyString (hpoon_file w))).1 →
     last_marked data = EmptyString) ∧
    ∀ name,
      (∀ v, marks data !! name = Some v →
            hpoon_get_mark (Some name) w = (w1, Done (inr v))) ∧
      (marks data !! name = None ↔
       hpoon_get_mark (Some name) w = (w1, Done (inl (MarkDoesNotExist name)))).
Proof.
  intros Hfit.
  assert (Hload : ∃ w1, load_hpoon w =
            (w1, Done (scan_loop (scan (default EmptyString (hpoon_file w))).1).1)).
  { rewrite load_hpoon_eq. cbn zeta. unfold scan at 2.
    rewrite (tokens_ok _ Hfit). eauto. }
  destruct Hload as [w1 Hload].
  exists w1, (scan_loop (scan (default EmptyString (hpoon_file w))).1).1.
  split; [exact Hload|]. unfold hpoon_get_mark. rewrite Hload.
  split; [reflexivity|]. split.
  - apply scan_loop_unset.
  - intros name.
    destruct (marks (scan_loop (scan (default EmptyString (hpoon_file w))).1).1
                !! name) as [v|]; split.
    + intros v' [= <-]. reflexivity.
    + split; [discriminate|]. intros [=].
    + discriminate.
    + split; reflexivity.
Qed.

Lemma C6_get_mark_contract_witness :
  hpoon_get_mark None (mkWorld (Some twice_file) [])
  = (mkWorld (Some twice_file) [], Done (inr "/x")) ∧
  hpoon_get_mark (Some "a") (mkWorld (Some twice_file) [])
  = (mkWorld (Some twice_file) [], Done (inr "B")) ∧
  hpoon_get_mark (Some "nope") (mkWorld (Some twice_file) [])
  = (mkWorld (Some twice_file) [], Done (inl (MarkDoesNotExist "nope"))).
Proof.
  destruct (C6_get_mark_contract (mkWorld (Some twice_file) []))
    as (w1 & data & Hload & Hnil & _ & Hname).
  - apply fits_checked. vm_compute. reflexivity.
  - assert (Hw : (w1, @Done HarpoonRecord data)
                 = (mkWorld (Some twice_file) [],
                    Done (mkRecord "/x" (<["b" := "C"]> (<["a" := "B"]> ∅))))).
    { rewrite <- Hload. vm_compute. reflexivity. }
    injection Hw as -> ->.
    split; [exact Hnil|]. split.
    + apply (Hname "a"). vm_compute. reflexivity.
    + apply (Hname "nope"). vm_compute. reflexivity.
Defined.

(** C7: the layout of a save.  For every record with a last mark, the
    file after [save] holds, whatever it held before, the line of the
    reserved key with the base64 of [last_marked] first and then one
    line for each entry of the map whose path is not empty, in some
    order, each ended by a line feed, and nothing else. *)
Theorem C7_save_layout (data : HarpoonRecord) (w : world) :
  last_marked data ≠ EmptyString →
  (∃ w', save_hpoon data w w') ∧
  ∀ w', save_hpoon data w w' →
    ∃ kvs,
      kvs ≡ₚ filter has_value (map_to_list (marks data)) ∧
      hpoon_file w' =
        Some (unlines
                ((LAST_MARKED_KEY +:+ String KV_SEPERATOR
                    (EncodeToString (last_marked data)))
                 :: ((λ kv, kv.1 +:+ String KV_SEPERATOR (EncodeToString kv.2))
                       <$> kvs))).
Proof.
  intros Hl. split.
  - eexists. exists (map_to_list (marks data)). split; reflexivity.
  - intros w' (kvs & Hperm & ->). exists (filter has_value kvs). split.
    + rewrite Hperm. reflexivity.
    + cbn [hpoon_file]. rewrite written_unlines by exact Hl. reflexivity.
Qed.

Lemma C7_save_layout_witness :
  ∃ kvs,
    kvs ≡ₚ filter has_value
             (map_to_list (<["gone" := EmptyString]> {["home" := "/tmp"]})) ∧
    Some ("_/L3g=" +:+ nl +:+ "home/L3RtcA==" +:+ nl) =
      Some (unlines
              ((LAST_MARKED_KEY +:+ String KV_SEPERATOR (EncodeToString "/x"))
               :: ((λ kv, kv.1 +:+ String KV_SEPERATOR (EncodeToString kv.2))
                     <$> kvs))).
Proof.
  destruct (C7_save_layout
              (mkRecord "/x" (<["gone" := EmptyString]> {["home" := "/tmp"]}))
              (mkWorld (Some "old") [])) as [_ H].
  - discriminate.
  - apply (H (mkWorld (Some ("_/L3g=" +:+ nl +:+ "home/L3RtcA==" +:+ nl)) [])).
    exists (map_to_list (<["gone" := EmptyString]> {["home" := "/tmp"]})).
    split; [reflexivity|]. vm_compute. reflexivity.
Defined.

(** C8: clean resets the state.  [clean_marks] removes the file, and
    does so without an error when there is none; after it
    [get_mark(nil)] returns the empty string and [list_marks] lists
    nothing. *)
Theorem C8_clean_resets (w : world) :
  hpoon_file (hpoon_clean w) = None ∧
  hpoon_clean (hpoon_clean w) = hpoon_clean w ∧
  (hpoon_get_mark None (hpoon_clean w)).2 = Done (inr EmptyString) ∧
  (∃ w', hpoon_list (hpoon_clean w) EmptyString w') ∧
  ∀ output w', hpoon_list (hpoon_clean w) output w' → output = EmptyString.
Proof.
  assert (Hload : load_hpoon (hpoon_clean w)
                  = (mkWorld (Some EmptyString) (stderr w ++ []),
                     Done (mkRecord EmptyString ∅))).
  { rewrite load_hpoon_eq. reflexivity. }
  split; [reflexivity|]. split; [reflexivity|]. split; [|split].
  - rewrite get_mark_eq, Hload. reflexivity.
  - eexists. exists (mkRecord EmptyString ∅), []. split; [exact Hload|].
    split; [|reflexivity]. cbn [marks]. rewrite map_to_list_empty. reflexivity.
  - intros output w' (data & kvs & Hl & Hperm & ->).
    rewrite Hload in Hl. injection Hl as _ <-.
    cbn [marks] in Hperm. rewrite map_to_list_empty in Hperm.
    apply Permutation_nil_r in Hperm as ->. reflexivity.
Qed.

(** C9: the path of the two-argument form is stored as it is given.
    When the path argument exists, [run_double_arg] passes it to
    [hpoon_set_mark] unchanged unless it is the literal [.], which
    alone becomes the working directory; the one-argument form passes
    what [filepath.Abs] makes of its argument. *)
Theorem C9_double_arg_verbatim (env : os_env) (arg name : string) :
  (check_path_exists env arg = true → arg ≠ "." →
   run_double_arg env arg name = CallSetMark arg (Some name)) ∧
  (check_path_exists env arg = true → arg = "." →
   run_double_arg env arg name = CallSetMark (getwd env) (Some name)) ∧
  (∀ path,
     arg ∉ ["-h"; "--help"; "clean"; "list"] → check_name_ref arg = false →
     filepath_abs env arg = Some path → check_path_exists env path = true →
     run_single_arg env arg = CallSetMark path None).
Proof.
  split; [|split].
  - intros Hex Hne. unfold run_double_arg. rewrite Hex. cbn [negb].
    rewrite bool_decide_eq_false_2 by exact Hne. reflexivity.
  - intros Hex Heq. unfold run_double_arg. rewrite Hex. cbn [negb].
    rewrite bool_decide_eq_true_2 by exact Heq. reflexivity.
  - intros path Hkw Href Habs Hpath. unfold run_single_arg.
    rewrite !bool_decide_eq_false_2, Href, Habs, Hpath; [reflexivity|..];
      intros H; apply Hkw; try destruct H as [H|H]; subst arg;
      repeat first [apply list_elem_of_here | apply list_elem_of_further].
Qed.

Lemma C9_double_arg_verbatim_witness :
  run_double_arg home_env "docs" "d" = CallSetMark "docs" (Some "d") ∧
  run_double_arg home_env "." "d" = CallSetMark "/home/u" (Some "d") ∧
  run_single_arg home_env "docs" = CallSetMark "/home/u/docs" None.
Proof.
  split; [|split].
  - apply (C9_double_arg_verbatim home_env "docs" "d");
      [vm_compute; reflexivity | discriminate].
  - apply (C9_double_arg_verbatim home_env "." "d");
      [vm_compute; reflexivity | reflexivity].
  - apply (C9_double_arg_verbatim home_env "docs" "d");
      [|reflexivity|reflexivity|vm_compute; reflexivity].
    intros H. repeat (apply elem_of_cons in H as [H|H]; [discriminate|]).
    inversion H.
Defined.

(** C10, as it stands, fails for a path whose line the scanner cannot
    hold: the base64 text of [long_path] has no separator, and after
    [set_mark(long_path, "_")] the next [get_mark("_")] ends the process
    instead of failing with not-found. *)
Lemma C10_counterexample :
  has_byte KV_SEPERATOR (EncodeToString long_path) = false ∧
  hpoon_set_mark long_path (Some LAST_MARKED_KEY) fresh
    (set_mark_run long_path (Some LAST_MARKED_KEY) fresh) ∧
  (hpoon_get_mark (Some LAST_MARKED_KEY)
     (set_mark_run long_path (Some LAST_MARKED_KEY) fresh)).2 = Quit.
Proof.
  split; [vm_compute; reflexivity|]. split.
  - apply set_mark_run_ok. vm_compute. discriminate.
  - vm_compute. reflexivity.
Qed.

(** C10, amended: a mark named by the reserved key is lost in the
    last-marked slot.  For every path whose base64 encoding holds no
    separator and whose reserved line fits the scanner, after
    [set_mark(p, "_")] the next load returns a record that holds no
    entry for [_], so that [get_mark("_")] ends with the not-found
    error, and whose [last_marked] is [p]. *)
Theorem C10_reserved_name_folds (p : string) (w w' : world) :
  has_byte KV_SEPERATOR (EncodeToString p) = false →
  fits (create_hpoon_line LAST_MARKED_KEY p) →
  hpoon_set_mark p (Some LAST_MARKED_KEY) w w' →
  ∃ data',
    (load_hpoon w').2 = Done data' ∧
    marks data' !! LAST_MARKED_KEY = None ∧
    last_marked data' = p ∧
    (hpoon_get_mark (Some LAST_MARKED_KEY) w').2
    = Done (inl (MarkDoesNotExist LAST_MARKED_KEY)).
Proof.
  intros Hsep Hfit Hset.
  destruct (reload_returns p (Some LAST_MARKED_KEY) w w' Hset Hfit)
    as [data' Hload].
  { intros x [= <-]. split; [apply reserved_plain | exact Hfit]. }
  exists data'. split; [exact Hload|].
  assert (Hnone : marks data' !! LAST_MARKED_KEY = None).
  { destruct (load_hpoon w') as [w2 o] eqn:E. simpl in Hload. subst o.
    apply (loaded_plain _ _ _ E). }
  split; [exact Hnone|]. split.
  - destruct (set_mark_reload p (Some LAST_MARKED_KEY) w w' Hset Hsep)
      with (data' := data') as [Hlast _]; [|exact Hload|exact Hlast].
    intros x [= <-]. apply reserved_plain.
  - rewrite get_mark_eq, Hload, Hnone. reflexivity.
Qed.

Lemma C10_reserved_name_folds_witness :
  ∃ data',
    (load_hpoon (set_mark_run "/tmp" (Some LAST_MARKED_KEY) fresh)).2
    = Done data' ∧
    marks data' !! LAST_MARKED_KEY = None ∧
    last_marked data' = "/tmp" ∧
    (hpoon_get_mark (Some LAST_MARKED_KEY)
       (set_mark_run "/tmp" (Some LAST_MARKED_KEY) fresh)).2
    = Done (inl (MarkDoesNotExist LAST_MARKED_KEY)).
Proof.
  apply (C10_reserved_name_folds "/tmp" fresh
           (set_mark_run "/tmp" (Some LAST_MARKED_KEY) fresh)).
  - vm_compute. reflexivity.
  - vm_compute. reflexivity.
  - apply set_mark_run_ok. vm_compute. discriminate.
Defined.

End Properties.

(** ** Writing back what was read *)

Module ReencodeFacts.
Import Base64 Base64Facts Scanner ScannerFacts CodecFacts LoopFacts
  StoreFacts CommandFacts LengthFacts.

(** A property of every byte, checked on the 256 of them. *)
Lemma all_ascii (P : ascii → bool) :
  forallb P (map (λ n, byte_of (Z.of_nat n)) (seq 0 256)) = true →
  ∀ c, P c = true.
Proof.
  intros Hall c. rewrite forallb_forall in Hall. apply Hall.
  apply in_map_iff. exists (Z.to_nat (byte_val c)).
  pose proof (byte_val_range c). split.
  - rewrite Z2Nat.id by lia. apply byte_of_val.
  - apply in_seq. lia.
Qed.

Lemma decodeMap_range (c : ascii) :
  valid c = true → 0 <= decodeMap c < 64.
Proof.
  intros Hv.
  assert (H : (negb (valid c) || ((0 <=? decodeMap c) && (decodeMap c <? 64)))
              = true).
  { revert c Hv. intros c _. revert c. apply all_ascii. vm_compute. reflexivity. }
  rewrite Hv in H. simpl in H. apply andb_true_iff in H as [H1 H2]. lia.
Qed.

(** Only the separator decodes to the digit 63, and only the digit 63
    encodes to the separator. *)
Lemma decodeMap_63 (c : ascii) : decodeMap c = 63 → c = KV_SEPERATOR.
Proof.
  intros Hd.
  assert (H : (negb (decodeMap c =? 63) || Ascii.eqb c KV_SEPERATOR) = true).
  { clear Hd. revert c. apply all_ascii. vm_compute. reflexivity. }
  rewrite Hd in H. simpl in H. apply Ascii.eqb_eq, H.
Qed.

Lemma encode_separator (d : Z) :
  0 <= d < 64 → d ≠ 63 → Ascii.eqb KV_SEPERATOR (encode d) = false.
Proof.
  intros Hd Hne.
  assert (H : ((d =? 63) || negb (Ascii.eqb KV_SEPERATOR (encode d))) = true).
  { clear Hne. revert d Hd. apply all_digits. vm_compute. reflexivity. }
  destruct (Z.eqb_spec d 63); [contradiction|].
  simpl in H. apply negb_true_iff, H.
Qed.

Lemma byte_val_out (val sh : Z) :
  0 <= sh → byte_val (out_byte val sh) = (val / 2 ^ sh) mod 256.
Proof.
  intros Hsh. unfold out_byte. rewrite land_shiftr_255 by lia.
  apply byte_val_of. apply Z.mod_pos_bound. lia.
Qed.

(** The digits of the group of the bytes decoded from four digits, from
    three and from two: the digits themselves, but for the bits that
    give no byte. *)
Lemma digits_of_decoded (d0 d1 d2 d3 : Z) :
  0 <= d0 < 64 → 0 <= d1 < 64 → 0 <= d2 < 64 → 0 <= d3 < 64 →
  let val := pack4 d0 d1 d2 d3 in
  let g3 := group (out_byte val 16) (out_byte val 8) (out_byte val 0) in
  let g2 := group (out_byte val 16) (out_byte val 8) zero in
  let g1 := group (out_byte val 16) zero zero in
  (dg g3 18 = d0 ∧ dg g3 12 = d1 ∧ dg g3 6 = d2 ∧ dg g3 0 = d3) ∧
  (dg g2 18 = d0 ∧ dg g2 12 = d1 ∧ dg g2 6 ≠ 63) ∧
  (dg g1 18 = d0 ∧ dg g1 12 ≠ 63).
Proof.
  intros H0 H1 H2 H3 val g3 g2 g1. unfold g3, g2, g1, group, dg.
  rewrite !byte_val_out by lia. change (byte_val zero) with 0.
  unfold val. rewrite pack4_add by assumption.
  rewrite !land_shiftr_63 by lia.
  change (2 ^ 18) with 262144. change (2 ^ 16) with 65536.
  change (2 ^ 12) with 4096. change (2 ^ 8) with 256.
  change (2 ^ 6) with 64. change (2 ^ 0) with 1.
  repeat split; divmod.
Qed.

End ReencodeFacts.

Module ReencodeMore.
Import Base64 Base64Facts Scanner ScannerFacts CodecFacts LoopFacts
  StoreFacts CommandFacts LengthFacts ReencodeFacts.

Lemma has_byte_strip (c : ascii) (s : string) :
  has_byte c s = false → has_byte c (strip_newlines s) = false.
Proof.
  induction s as [|d s IH]; [reflexivity|].
  cbn [has_byte strip_newlines]. destruct (Ascii.eqb c d) eqn:E; [discriminate|].
  intros H. destruct (is_newline d); [auto|]. cbn [has_byte]. rewrite E. auto.
Qed.

Lemma digit_not_separator (c : ascii) :
  valid c = true → Ascii.eqb KV_SEPERATOR c = false →
  Ascii.eqb KV_SEPERATOR (encode (decodeMap c)) = false.
Proof.
  intros Hv Hc. apply encode_separator; [apply decodeMap_range, Hv|].
  intros H63. apply decodeMap_63 in H63. subst c.
  rewrite Ascii.eqb_refl in Hc. discriminate.
Qed.

(** Encoding what was decoded from a text without separator gives a text
    without separator. *)
Lemma reencode_quanta (s out : string) :
  decode_quanta s = Some out → has_byte KV_SEPERATOR s = false →
  has_byte KV_SEPERATOR (EncodeToString out) = false.
Proof.
  revert out.
  induction s as [|a|a b|a b c|a b c d s IH] using string_ind4; intros out;
    try (cbn [decode_quanta]; discriminate).
  - intros [= <-]. reflexivity.
  - cbn [decode_quanta has_byte].
    destruct (valid a) eqn:Va; [|discriminate].
    destruct (valid b) eqn:Vb; [|discriminate]. cbn [andb].
    destruct (Ascii.eqb KV_SEPERATOR a) eqn:Sa; [discriminate|].
    destruct (Ascii.eqb KV_SEPERATOR b) eqn:Sb; [discriminate|].
    pose proof (decodeMap_range a Va) as Ra.
    pose proof (decodeMap_range b Vb) as Rb.
    destruct (valid c) eqn:Vc.
    + pose proof (decodeMap_range c Vc) as Rc.
      destruct (Ascii.eqb KV_SEPERATOR c) eqn:Sc; [discriminate|].
      destruct (valid d) eqn:Vd.
      * pose proof (decodeMap_range d Vd) as Rd.
        destruct (Ascii.eqb KV_SEPERATOR d) eqn:Sd; [discriminate|].
        destruct (decode_quanta s) as [out'|]; [|discriminate].
        intros [= <-] Hs.
        destruct (digits_of_decoded _ _ _ _ Ra Rb Rc Rd)
          as ((E0 & E1 & E2 & E3) & _ & _).
        cbn [EncodeToString]. rewrite pack3_group. rewrite !digit_encode.
        rewrite E0, E1, E2, E3. cbn [has_byte].
        rewrite !digit_not_separator by assumption.
        apply (IH out' eq_refl Hs).
      * destruct (Ascii.eqb d padChar); [|discriminate].
        destruct s; [|discriminate]. intros [= <-] _.
        assert (R0 : 0 <= 0 < 64) by lia.
        destruct (digits_of_decoded _ _ _ _ Ra Rb Rc R0)
          as (_ & (E0 & E1 & E2) & _).
        cbn [EncodeToString]. rewrite pack2_group. rewrite !digit_encode.
        rewrite E0, E1. cbn [has_byte].
        rewrite !digit_not_separator by assumption.
        rewrite encode_separator; [reflexivity | apply dg_range; lia | exact E2].
    + destruct (Ascii.eqb c padChar && Ascii.eqb d padChar); [|discriminate].
      destruct s; [|discriminate]. intros [= <-] _.
      assert (R0 : 0 <= 0 < 64) by lia.
      destruct (digits_of_decoded _ _ _ _ Ra Rb R0 R0)
        as (_ & _ & (E0 & E1)).
      cbn [EncodeToString]. rewrite pack1_group. rewrite !digit_encode.
      rewrite E0. cbn [has_byte].
      rewrite !digit_not_separator by assumption.
      rewrite encode_separator; [reflexivity | apply dg_range; lia | exact E1].
Qed.

Lemma reencode (value v : string) :
  DecodeString value = Some v → has_byte KV_SEPERATOR value = false →
  has_byte KV_SEPERATOR (EncodeToString v) = false.
Proof.
  unfold DecodeString. intros Hd Hs.
  apply (reencode_quanta _ _ Hd). apply has_byte_strip, Hs.
Qed.

(** A parsed line, in full. *)
Lemma parse_inv_full (line k v : string) :
  parse_hpoon_line line = inr (k, v) →
  ∃ value, line = k +:+ String KV_SEPERATOR value ∧
           has_byte KV_SEPERATOR k = false ∧
           has_byte KV_SEPERATOR value = false ∧
           DecodeString value = Some v.
Proof.
  unfold parse_hpoon_line.
  pose proof (split_on_parts KV_SEPERATOR line) as Hparts.
  destruct (split_on KV_SEPERATOR line) as [|p [|q [|r ps]]] eqn:E;
    try discriminate.
  destruct (DecodeString q) as [d|] eqn:Hd; [|discriminate].
  intros [= <- <-]. exists q.
  inversion Hparts as [|? ? [Hp _] Hrest]; subst.
  inversion Hrest as [|? ? [Hq _] _]; subst.
  repeat split; [apply split_on_two, E | assumption..].
Qed.

(** The values of a loaded record encode without separator. *)
Lemma loaded_values (w w1 : world) (data : HarpoonRecord) (k v : string) :
  load_hpoon w = (w1, Done data) → marks data !! k = Some v →
  has_byte KV_SEPERATOR (EncodeToString v) = false.
Proof.
  rewrite load_hpoon_eq. cbn zeta.
  destruct (scan (default EmptyString (hpoon_file w))).2; [discriminate|].
  intros [= _ <-] Hkv.
  apply scan_loop_source in Hkv as (l & _ & Hp & _).
  apply parse_inv_full in Hp as (value & _ & _ & Hs & Hd).
  exact (reencode _ _ Hd Hs).
Qed.

End ReencodeMore.

(** ** The store after a save, in full *)

Module RoundTripFacts.
Import Base64 Base64Facts Scanner ScannerFacts CodecFacts LoopFacts
  StoreFacts CommandFacts LengthFacts ReencodeFacts ReencodeMore.

(** Where a parsed line of a written file comes from: the reserved line
    or an entry, and its path encodes without separator. *)
Lemma written_source (data : HarpoonRecord) (kvs : list (string * string))
    (l k v : string) :
  Forall (λ kv, plain_key kv.1) kvs →
  l ∈ written_lines data kvs → parse_hpoon_line l = inr (k, v) →
  has_byte KV_SEPERATOR (EncodeToString v) = false ∧
  ((k = LAST_MARKED_KEY ∧ v = last_marked data) ∨
   ((k, v) ∈ kvs ∧ v ≠ EmptyString)).
Proof.
  intros Hplain Hin Hp. unfold written_lines in Hin.
  apply elem_of_cons in Hin as [->|Hin].
  - apply parse_create_inv in Hp as (-> & -> & Hs); [|reflexivity]. auto.
  - apply list_elem_of_fmap in Hin as ([k' v'] & -> & Hin).
    apply list_elem_of_filter in Hin as [Hv Hin].
    rewrite Forall_forall in Hplain. destruct (Hplain _ Hin) as [Hsep _].
    apply parse_create_inv in Hp as (-> & -> & Hs); [|exact Hsep].
    simpl in *. auto.
Qed.

(** The map read back from a written file: the entries with a path that
    is not empty and encodes without separator, the reserved key apart. *)
Lemma reload_marks (data : HarpoonRecord) (kvs : list (string * string))
    (k v : string) :
  Forall (λ kv, plain_key kv.1) kvs → NoDup kvs.*1 →
  marks (scan_loop (written_lines data kvs)).1 !! k = Some v ↔
  k ≠ LAST_MARKED_KEY ∧ (k, v) ∈ kvs ∧ v ≠ EmptyString ∧
  has_byte KV_SEPERATOR (EncodeToString v) = false.
Proof.
  intros Hplain Hnd. split.
  - intros Hkv. apply scan_loop_source in Hkv as (l & Hin & Hp & Hk).
    destruct (written_source data kvs l k v Hplain Hin Hp)
      as [Hs [[-> _]|[Hkvs Hv]]]; [contradiction | auto].
  - intros (Hk & Hin & Hv & Hs).
    pose proof (reload_entry data kvs k v Hplain Hnd Hin Hv Hs) as H.
    unfold record_get in H. rewrite decide_False in H by exact Hk. exact H.
Qed.

(** [last_marked] read back from a written file: the path that was
    written, or nothing when its encoding holds the separator. *)
Lemma reload_last_general (data : HarpoonRecord) (kvs : list (string * string)) :
  Forall (λ kv, plain_key kv.1) kvs → NoDup kvs.*1 →
  last_marked data ≠ EmptyString →
  (∀ v, (LAST_MARKED_KEY, v) ∈ kvs → v = last_marked data) →
  last_marked (scan_loop (written_lines data kvs)).1 =
    if has_byte KV_SEPERATOR (EncodeToString (last_marked data))
    then EmptyString else last_marked data.
Proof.
  intros Hplain Hnd Hl Hres.
  destruct (has_byte KV_SEPERATOR (EncodeToString (last_marked data))) eqn:Hs.
  - apply scan_loop_unset. apply Forall_forall. intros l Hin [v Hp].
    destruct (written_source data kvs l _ v Hplain Hin Hp)
      as [Hsv [[_ ->]|[Hkvs _]]]; [congruence|].
    rewrite (Hres v Hkvs) in Hsv. congruence.
  - apply reload_last; assumption.
Qed.

(** The lines of a written file fit when the reserved line and the line
    of every entry with a path do. *)
Lemma written_lines_fit (data : HarpoonRecord) (kvs : list (string * string)) :
  Forall fits (written_lines data kvs) ↔
  fits (create_hpoon_line LAST_MARKED_KEY (last_marked data)) ∧
  ∀ k v, (k, v) ∈ kvs → v ≠ EmptyString → fits (create_hpoon_line k v).
Proof.
  unfold written_lines. rewrite Forall_cons, Forall_fmap, Forall_forall.
  split; intros [H1 H2]; (split; [exact H1|]).
  - intros k v Hin Hv. apply (H2 (k, v)). apply list_elem_of_filter. auto.
  - intros [k v] Hin. apply list_elem_of_filter in Hin as [Hv Hin].
    exact (H2 k v Hin Hv).
Qed.

(** [hpoon_set_mark] with a path, step by step: the record that was
    loaded, the order the map was ranged over, and the next load. *)
Lemma set_mark_steps (p : string) (name : option string) (w w' : world) :
  hpoon_set_mark p name w w' → p ≠ EmptyString →
  (∀ x, name = Some x → plain_key x) →
  ∃ w1 data kvs,
    load_hpoon w = (w1, Done data) ∧
    Forall (λ kv, plain_key kv.1) kvs ∧ NoDup kvs.*1 ∧
    (∀ k v, (k, v) ∈ kvs ↔ marks (set_in_record p name data) !! k = Some v) ∧
    (load_hpoon w').2 =
      if bool_decide (Forall fits (written_lines (set_in_record p name data) kvs))
      then Done (scan_loop (written_lines (set_in_record p name data) kvs)).1
      else Quit.
Proof.
  intros Hset Hp Hname.
  apply set_mark_inv in Hset as (w1 & data & kvs & Hl & Hperm & ->).
  exists w1, data, kvs. split; [exact Hl|].
  apply loaded_plain in Hl as [Hplain _].
  assert (Hplain2 : plain_keys (marks (set_in_record p name data))).
  { unfold set_in_record. destruct name as [x|]; simpl; [|exact Hplain].
    apply plain_keys_insert; [exact Hplain | apply Hname; reflexivity]. }
  destruct (range_plain _ _ Hplain2 Hperm) as (Hk & Hnd & Hin).
  repeat split; try assumption; try apply Hin.
  apply load_written; assumption.
Qed.

(** The entries of the record that [hpoon_set_mark] saves. *)
Lemma set_in_record_lookup (p : string) (name : option string)
    (data : HarpoonRecord) (k : string) :
  marks (set_in_record p name data) !! k =
    if decide (name = Some k) then Some p else marks data !! k.
Proof.
  unfold set_in_record. destruct name as [x|]; cbn [marks].
  - destruct (decide (Some x = Some k)) as [[= ->]|Hne].
    + apply lookup_insert_eq.
    + apply lookup_insert_ne. congruence.
  - destruct (decide (None = Some k)); [discriminate | reflexivity].
Qed.

(** After [hpoon_set_mark] the lines of the file fit when those of the
    new mark do. *)
Lemma set_mark_lines_fit (p : string) (name : option string)
    (w w1 : world) (data : HarpoonRecord) (kvs : list (string * string)) :
  load_hpoon w = (w1, Done data) →
  (∀ k v, (k, v) ∈ kvs ↔ marks (set_in_record p name data) !! k = Some v) →
  fits (create_hpoon_line LAST_MARKED_KEY p) →
  (∀ x, name = Some x → fits (create_hpoon_line x p)) →
  Forall fits (written_lines (set_in_record p name data) kvs).
Proof.
  intros Hl Hin Hfp Hfx. apply written_lines_fit. split; [exact Hfp|].
  intros k v Hkv _. apply Hin in Hkv. rewrite set_in_record_lookup in Hkv.
  destruct (decide (name = Some k)) as [Hn|_].
  - injection Hkv as <-. apply Hfx, Hn.
  - exact (loaded_fits _ _ _ _ _ Hl Hkv).
Qed.

Lemma listing_concat (kvs : list (string * string)) :
  listing kvs = concat_strings (list_line <$> kvs).
Proof.
  unfold listing.
  enough (G : ∀ acc,
    fold_left (λ output kv, output +:+ kv.1 +:+ ": " +:+ kv.2 +:+ nl) kvs acc
    = acc +:+ concat_strings (list_line <$> kvs)) by apply G.
  induction kvs as [|kv kvs IH]; intros acc.
  - simpl. rewrite append_nil_r. reflexivity.
  - cbn [fold_left fmap list_fmap concat_strings fold_right]. rewrite IH.
    rewrite append_assoc. reflexivity.
Qed.

(** [hpoon_get_mark] over the record of the load. *)
Lemma get_mark_loaded (name : option string) (w : world) (data : HarpoonRecord) :
  (load_hpoon w).2 = Done data →
  (hpoon_get_mark name w).2 =
    Done match name with
         | None => inr (last_marked data)
         | Some n =>
             match marks data !! n with
             | Some value => inr value
             | None => inl (MarkDoesNotExist n)
             end
         end.
Proof. intros H. rewrite get_mark_eq, H. reflexivity. Qed.

(** Set, then get: the last mark and the named mark. *)
Lemma set_then_get (p : string) (name : option string) (w w' : world) :
  has_byte KV_SEPERATOR (EncodeToString p) = false →
  fits (create_hpoon_line LAST_MARKED_KEY p) →
  (∀ x, name = Some x →
     x ≠ LAST_MARKED_KEY ∧ plain_key x ∧ p ≠ EmptyString ∧
     fits (create_hpoon_line x p)) →
  hpoon_set_mark p name w w' →
  (hpoon_get_mark None w').2 = Done (inr p) ∧
  ∀ x, name = Some x → (hpoon_get_mark (Some x) w').2 = Done (inr p).
Proof.
  intros Hsep Hfit Hname Hset.
  destruct (reload_returns p name w w' Hset Hfit) as [data' Hload].
  { intros x Hx. destruct (Hname x Hx) as (_ & ? & _ & ?). auto. }
  destruct (set_mark_reload p name w w' Hset Hsep) with (data' := data')
    as [Hlast Hentry]; [|exact Hload|].
  { intros x Hx. apply (Hname x Hx). }
  split; [rewrite get_mark_eq, Hload; congruence|].
  intros x Hx. destruct (Hname x Hx) as (Hres & _ & Hp & _).
  specialize (Hentry x Hx Hp). unfold record_get in Hentry.
  rewrite decide_False in Hentry by exact Hres.
  rewrite get_mark_eq, Hload, Hentry. reflexivity.
Qed.

Lemma load_clean (w : world) :
  load_hpoon (hpoon_clean w)
  = (mkWorld (Some EmptyString) (stderr w ++ []), Done (mkRecord EmptyString ∅)).
Proof. rewrite load_hpoon_eq. reflexivity. Qed.

(** A name reference is the prefix and a name. *)
Lemma check_name_ref_inv (arg : string) :
  check_name_ref arg = true ↔ ∃ name, arg = NAME_REF +:+ name.
Proof.
  unfold check_name_ref, NAME_REF. split.
  - destruct arg as [|c name]; [discriminate|]. cbn [HasPrefix].
    intros H. apply andb_true_iff in H as [Hc _].
    apply Ascii.eqb_eq in Hc as ->. exists name. reflexivity.
  - intros [name ->]. cbn. destruct name; reflexivity.
Qed.

Lemma name_ref_not_keyword (name : string) :
  NAME_REF +:+ name ∉ ["-h"; "--help"; "clean"; "list"].
Proof.
  intros H. repeat (apply elem_of_cons in H as [H|H]; [discriminate|]).
  inversion H.
Qed.

(** The keywords of [run_single_arg] come first. *)
Lemma run_single_arg_other (env : os_env) (arg : string) :
  arg ∉ ["-h"; "--help"; "clean"; "list"] →
  run_single_arg env arg =
    if check_name_ref arg then CallOutMarkAt arg
    else match filepath_abs env arg with
         | None => QuitNotSure arg
         | Some path =>
             if check_path_exists env path then CallSetMark path None
             else QuitNoPath path
         end.
Proof.
  intros Hkw. unfold run_single_arg.
  rewrite !bool_decide_eq_false_2; [reflexivity|..];
    intros H; apply Hkw; try destruct H as [H|H]; subst arg;
    repeat first [apply list_elem_of_here | apply list_elem_of_further].
Qed.

Lemma run_single_arg_keyword (env : os_env) (arg : string) :
  arg ∈ ["-h"; "--help"; "clean"; "list"] →
  run_single_arg env arg ∈ [PrintHelp; CallClean; CallList].
Proof.
  intros H. repeat (apply elem_of_cons in H as [->|H]);
    [| | | |inversion H]; vm_compute;
    repeat first [apply list_elem_of_here | apply list_elem_of_further].
Qed.

End RoundTripFacts.

(** ** Further properties of the code *)

Module MoreProperties.
Import Base64 Base64Facts Scanner ScannerFacts CodecFacts LoopFacts
  StoreFacts CommandFacts LengthFacts ReencodeFacts ReencodeMore
  RoundTripFacts.

(** A text with the separator splits in two parts at least. *)
Lemma split_on_sep (sep : ascii) (s : string) :
  has_byte sep s = true → ∃ a b rest, split_on sep s = a :: b :: rest.
Proof.
  intros Hs. destruct (split_on sep s) as [|a [|b rest]] eqn:E.
  - destruct (split_on_cons sep s) as (q & qs & E'). congruence.
  - apply split_on_single in E. congruence.
  - eauto.
Qed.

(** X1: what the codec gives back.  For a key without the separator,
    parsing the line made of the key and a path gives the key and the
    path when the base64 text of the path holds no separator, and the
    invalid-format error when it holds one. *)
Theorem X1_parse_of_created_line (key value : string) :
  has_byte KV_SEPERATOR key = false →
  parse_hpoon_line (create_hpoon_line key value) =
    if has_byte KV_SEPERATOR (EncodeToString value)
    then inl (InvalidFormat (create_hpoon_line key value))
    else inr (key, value).
Proof.
  intros Hk. unfold parse_hpoon_line. rewrite split_create by exact Hk.
  destruct (has_byte KV_SEPERATOR (EncodeToString value)) eqn:Hv.
  - destruct (split_on_sep _ _ Hv) as (a & b & rest & ->). reflexivity.
  - rewrite split_on_no_sep by exact Hv.
    rewrite DecodeString_EncodeToString. reflexivity.
Qed.

Lemma X1_parse_of_created_line_witness :
  parse_hpoon_line (create_hpoon_line "my file" ("/a b" +:+ nl +:+ "c"))
  = inr ("my file", "/a b" +:+ nl +:+ "c").
Proof.
  apply (X1_parse_of_created_line "my file" ("/a b" +:+ nl +:+ "c")).
  reflexivity.
Defined.

(** X2: which lines parse.  A line parses to a key and a path exactly
    when it is the key, one separator and a text, neither of which holds
    the separator, and the text is base64 for the path; a line without
    separator is an invalid-format error. *)
Theorem X2_parse_characterised (line : string) :
  (∀ k v, parse_hpoon_line line = inr (k, v) ↔
     ∃ value, line = k +:+ String KV_SEPERATOR value ∧
              has_byte KV_SEPERATOR k = false ∧
              has_byte KV_SEPERATOR value = false ∧
              DecodeString value = Some v) ∧
  (has_byte KV_SEPERATOR line = false →
   parse_hpoon_line line = inl (InvalidFormat line)).
Proof.
  split.
  - intros k v. split; [apply parse_inv_full|].
    intros (value & -> & Hk & Hv & Hd). unfold parse_hpoon_line.
    rewrite split_on_app by exact Hk. rewrite split_on_no_sep by exact Hv.
    rewrite Hd. reflexivity.
  - intros Hs. unfold parse_hpoon_line. rewrite split_on_no_sep by exact Hs.
    reflexivity.
Qed.

Lemma X2_parse_characterised_witness :
  parse_hpoon_line "garbage" = inl (InvalidFormat "garbage").
Proof. apply (X2_parse_characterised "garbage"). reflexivity. Defined.

(** X3: what a loaded record holds.  The map of a record that
    [load_hpoon] returns never has the reserved key, no key of it holds
    a line feed, and the line written for any of its entries fits the
    scanner and parses to that entry again. *)
Theorem X3_loaded_record_invariant (w w1 : world) (data : HarpoonRecord) :
  load_hpoon w = (w1, Done data) →
  marks data !! LAST_MARKED_KEY = None ∧
  ∀ k v, marks data !! k = Some v →
    has_byte LF k = false ∧
    fits (create_hpoon_line k v) ∧
    parse_hpoon_line (create_hpoon_line k v) = inr (k, v).
Proof.
  intros Hl. destruct (loaded_plain _ _ _ Hl) as [Hplain Hres].
  split; [exact Hres|]. intros k v Hkv.
  destruct (Hplain k v Hkv) as [Hsep Hlf].
  split; [exact Hlf|]. split; [exact (loaded_fits _ _ _ _ _ Hl Hkv)|].
  apply parse_create; [exact Hsep|]. exact (loaded_values _ _ _ _ _ Hl Hkv).
Qed.

Lemma X3_loaded_record_invariant_witness :
  marks (mkRecord "/x" (<["b" := "C"]> (<["a" := "B"]> ∅))) !! LAST_MARKED_KEY
  = None ∧
  ∀ k v, marks (mkRecord "/x" (<["b" := "C"]> (<["a" := "B"]> ∅))) !! k = Some v →
    has_byte LF k = false ∧
    fits (create_hpoon_line k v) ∧
    parse_hpoon_line (create_hpoon_line k v) = inr (k, v).
Proof.
  apply (X3_loaded_record_invariant two_marks two_marks).
  vm_compute. reflexivity.
Defined.

(** X4: reading changes nothing.  [hpoon_get_mark] leaves the file with
    the content it had, empty when there was none, so that the next load
    and the next [hpoon_get_mark] give what they gave. *)
Theorem X4_get_mark_reads_only (name : option string) (w : world) :
  hpoon_file (hpoon_get_mark name w).1
  = Some (default EmptyString (hpoon_file w)) ∧
  (load_hpoon (hpoon_get_mark name w).1).2 = (load_hpoon w).2 ∧
  (hpoon_get_mark name (hpoon_get_mark name w).1).2
  = (hpoon_get_mark name w).2.
Proof.
  assert (Hw : (hpoon_get_mark name w).1 = (load_hpoon w).1).
  { unfold hpoon_get_mark. destruct (load_hpoon w) as [w1 [data|]]; reflexivity. }
  assert (Hload : (load_hpoon (load_hpoon w).1).2 = (load_hpoon w).2).
  { rewrite (load_hpoon_eq w). cbn zeta. cbn [fst].
    rewrite load_hpoon_eq. reflexivity. }
  rewrite Hw. split; [|split].
  - rewrite load_hpoon_eq. reflexivity.
  - exact Hload.
  - rewrite !get_mark_eq, Hload. reflexivity.
Qed.

(** X5: a save read back.  For a record with a last mark and keys
    without separator and line feed, the load after a save returns
    exactly when the reserved line and the line of every entry with a
    path fit the scanner; the map it returns holds the entries whose
    path is not empty and encodes without separator, but never the
    reserved key; and its [last_marked] is the one saved, or empty when
    that encodes with a separator. *)
Theorem X5_save_then_load (data : HarpoonRecord) (w w' : world) :
  last_marked data ≠ EmptyString → plain_keys (marks data) →
  save_hpoon data w w' →
  ((load_hpoon w').2 ≠ Quit ↔
   fits (create_hpoon_line LAST_MARKED_KEY (last_marked data)) ∧
   ∀ k v, marks data !! k = Some v → v ≠ EmptyString →
          fits (create_hpoon_line k v)) ∧
  ∀ data', (load_hpoon w').2 = Done data' →
    (∀ k v, marks data' !! k = Some v ↔
       k ≠ LAST_MARKED_KEY ∧ marks data !! k = Some v ∧ v ≠ EmptyString ∧
       has_byte KV_SEPERATOR (EncodeToString v) = false) ∧
    ((∀ v, marks data !! LAST_MARKED_KEY = Some v → v = last_marked data) →
     last_marked data' =
       if has_byte KV_SEPERATOR (EncodeToString (last_marked data))
       then EmptyString else last_marked data).
Proof.
  intros Hl Hplain (kvs & Hperm & ->).
  destruct (range_plain _ _ Hplain Hperm) as (Hk & Hnd & Hin).
  rewrite load_written by assumption. split.
  - split.
    + intros Hne. case_bool_decide as Hfit; [|contradiction].
      apply written_lines_fit in Hfit as [H1 H2]. split; [exact H1|].
      intros k v Hkv Hv. apply (H2 k v); [apply Hin, Hkv | exact Hv].
    + intros [H1 H2]. rewrite bool_decide_eq_true_2; [discriminate|].
      apply written_lines_fit. split; [exact H1|].
      intros k v Hkv Hv. apply H2; [apply Hin, Hkv | exact Hv].
  - intros data'. case_bool_decide; [|discriminate]. intros [= <-]. split.
    + intros k v. rewrite reload_marks by assumption. rewrite Hin. reflexivity.
    + intros Hres. apply reload_last_general; try assumption.
      intros v Hv. apply Hres, Hin, Hv.
Qed.

Lemma X5_save_then_load_witness :
  (load_hpoon (mkWorld (Some (written sample_record
                                (map_to_list (marks sample_record)))) [])).2
  ≠ Quit ∧
  ∀ data',
    (load_hpoon (mkWorld (Some (written sample_record
                                  (map_to_list (marks sample_record)))) [])).2
    = Done data' →
    marks data' !! "a" = Some "B" ∧ marks data' !! "gone" = None ∧
    last_marked data' = "/x".
Proof.
  assert (Hkeys : ∀ k v, marks sample_record !! k = Some v →
                         k = "a" ∧ v = "B" ∨ k = "gone" ∧ v = EmptyString).
  { intros k v H. unfold sample_record in H. cbn [marks] in H.
    destruct (decide ("a" = k)) as [<-|Hne].
    - rewrite lookup_insert_eq in H. injection H as <-. auto.
    - rewrite lookup_insert_ne in H by exact Hne.
      apply lookup_singleton_Some in H as [<- <-]. auto. }
  destruct (X5_save_then_load sample_record (mkWorld None [])
              (mkWorld (Some (written sample_record
                                (map_to_list (marks sample_record)))) []))
    as [Hret Hrec].
  - discriminate.
  - intros k v H. destruct (Hkeys k v H) as [[-> _]|[-> _]]; split; reflexivity.
  - exists (map_to_list (marks sample_record)). split; reflexivity.
  - split.
    + apply Hret. split; [vm_compute; reflexivity|].
      intros k v H Hv. destruct (Hkeys k v H) as [[-> ->]|[-> ->]];
        [vm_compute; reflexivity | contradiction].
    + intros data' Hload. destruct (Hrec data' Hload) as [Hmarks Hlast].
      split; [|split].
      * apply Hmarks. split; [discriminate|]. split; [vm_compute; reflexivity|].
        split; [discriminate | vm_compute; reflexivity].
      * destruct (marks data' !! "gone") as [v|] eqn:E; [|reflexivity].
        apply Hmarks in E as (_ & H & Hv & _).
        destruct (Hkeys _ _ H) as [[? _]|[_ ->]]; [discriminate | contradiction].
      * rewrite Hlast; [reflexivity|].
        intros v H. destruct (Hkeys _ _ H) as [[? _]|[? _]]; discriminate.
Defined.

(** X6: [hpoon_set_mark] leaves the other marks alone.  When the path is
    not empty and its reserved line fits the scanner, and the name, if
    one is given, holds neither separator nor line feed and its line
    fits too, a name other than the one given has after
    [hpoon_set_mark] the answer of [hpoon_get_mark] it had before, its
    path or the not-found error; but a name whose path was empty is not
    found afterwards. *)
Theorem X6_set_mark_keeps_others (p : string) (name : option string)
    (w w' : world) (k : string) :
  hpoon_set_mark p name w w' →
  p ≠ EmptyString →
  fits (create_hpoon_line LAST_MARKED_KEY p) →
  (∀ x, name = Some x → plain_key x ∧ fits (create_hpoon_line x p)) →
  name ≠ Some k →
  ((hpoon_get_mark (Some k) w).2 ≠ Done (inr EmptyString) →
   (hpoon_get_mark (Some k) w').2 = (hpoon_get_mark (Some k) w).2) ∧
  ((hpoon_get_mark (Some k) w).2 = Done (inr EmptyString) →
   (hpoon_get_mark (Some k) w').2 = Done (inl (MarkDoesNotExist k))).
Proof.
  intros Hset Hp Hfp Hname Hk.
  destruct (set_mark_steps p name w w' Hset Hp)
    as (w1 & data & kvs & Hl & Hplain & Hnd & Hin & Hload).
  { intros x Hx. apply (Hname x Hx). }
  assert (Hfit : Forall fits (written_lines (set_in_record p name data) kvs)).
  { apply (set_mark_lines_fit p name w w1 data kvs Hl Hin Hfp).
    intros x Hx. apply (Hname x Hx). }
  rewrite bool_decide_eq_true_2 in Hload by exact Hfit.
  assert (Hl2 : (load_hpoon w).2 = Done data) by (rewrite Hl; reflexivity).
  rewrite (get_mark_loaded _ _ _ Hload), (get_mark_loaded _ _ _ Hl2).
  assert (Hold : ∀ v, marks (scan_loop (written_lines
                        (set_in_record p name data) kvs)).1 !! k = Some v →
                      marks data !! k = Some v ∧ v ≠ EmptyString).
  { intros v Hnew. apply reload_marks in Hnew as (_ & Hkvs & Hv & _);
      try assumption.
    apply Hin in Hkvs.
    rewrite set_in_record_lookup, decide_False in Hkvs by exact Hk. auto. }
  destruct (marks data !! k) as [v|] eqn:Hkv; split; intros Hne.
  - assert (Hv : v ≠ EmptyString) by congruence.
    assert (Hres : k ≠ LAST_MARKED_KEY).
    { intros ->. destruct (loaded_plain _ _ _ Hl) as [_ Hnone]. congruence. }
    assert (Hnew : marks (scan_loop (written_lines (set_in_record p name data)
                                       kvs)).1 !! k = Some v).
    { apply reload_marks; try assumption. repeat split; try assumption.
      - apply Hin. rewrite set_in_record_lookup, decide_False by exact Hk.
        exact Hkv.
      - exact (loaded_values _ _ _ _ _ Hl Hkv). }
    rewrite Hnew. reflexivity.
  - injection Hne as ->.
    destruct (marks (scan_loop (written_lines (set_in_record p name data)
                                  kvs)).1 !! k) as [v|] eqn:Hnew;
      [|reflexivity].
    destruct (Hold v eq_refl) as [Hv1 Hv2]. congruence.
  - destruct (marks (scan_loop (written_lines (set_in_record p name data)
                                  kvs)).1 !! k) as [v|] eqn:Hnew;
      [|reflexivity].
    destruct (Hold v eq_refl) as [Hv1 _]. discriminate.
  - discriminate.
Qed.

Lemma X6_set_mark_keeps_others_witness :
  (hpoon_get_mark (Some "a") (set_mark_run "/tmp" (Some "c") two_marks)).2
  = (hpoon_get_mark (Some "a") two_marks).2.
Proof.
  apply (X6_set_mark_keeps_others "/tmp" (Some "c") two_marks).
  - apply Properties.set_mark_run_ok. vm_compute. discriminate.
  - discriminate.
  - vm_compute. reflexivity.
  - intros x [= <-]. repeat split; vm_compute; reflexivity.
  - discriminate.
  - vm_compute. discriminate.
Defined.

(** X7: a path that encodes with the separator is lost.  When the
    base64 text of the path holds the separator and its reserved line
    fits the scanner, and the name, if one is given, holds neither
    separator nor line feed and its line fits too, after
    [hpoon_set_mark] [hpoon_get_mark] returns the empty string for the
    last mark and the not-found error for the name the path was given,
    whatever the store held before. *)
Theorem X7_separator_in_encoding_loses_mark (p : string)
    (name : option string) (w w' : world) :
  hpoon_set_mark p name w w' →
  has_byte KV_SEPERATOR (EncodeToString p) = true →
  fits (create_hpoon_line LAST_MARKED_KEY p) →
  (∀ x, name = Some x → plain_key x ∧ fits (create_hpoon_line x p)) →
  (hpoon_get_mark None w').2 = Done (inr EmptyString) ∧
  ∀ x, name = Some x →
    (hpoon_get_mark (Some x) w').2 = Done (inl (MarkDoesNotExist x)).
Proof.
  intros Hset Hs Hfp Hname.
  assert (Hp : p ≠ EmptyString) by (intros ->; discriminate).
  destruct (set_mark_steps p name w w' Hset Hp)
    as (w1 & data & kvs & Hl & Hplain & Hnd & Hin & Hload).
  { intros x Hx. apply (Hname x Hx). }
  assert (Hfit : Forall fits (written_lines (set_in_record p name data) kvs)).
  { apply (set_mark_lines_fit p name w w1 data kvs Hl Hin Hfp).
    intros x Hx. apply (Hname x Hx). }
  rewrite bool_decide_eq_true_2 in Hload by exact Hfit.
  split.
  - rewrite (get_mark_loaded _ _ _ Hload).
    rewrite reload_last_general; try assumption.
    + cbn [set_in_record last_marked]. rewrite Hs. reflexivity.
    + intros v Hv. apply Hin in Hv. rewrite set_in_record_lookup in Hv.
      destruct (decide (name = Some LAST_MARKED_KEY));
        [injection Hv as <-; reflexivity|].
      destruct (loaded_plain _ _ _ Hl) as [_ Hnone]. congruence.
  - intros x Hx. rewrite (get_mark_loaded _ _ _ Hload).
    destruct (marks (scan_loop (written_lines (set_in_record p name data)
                                  kvs)).1 !! x) as [v|] eqn:Hnew;
      [|reflexivity].
    apply reload_marks in Hnew as (_ & Hkvs & _ & Hsv); try assumption.
    apply Hin in Hkvs.
    rewrite set_in_record_lookup, decide_True in Hkvs by exact Hx.
    congruence.
Qed.

Lemma X7_separator_in_encoding_loses_mark_witness :
  (hpoon_get_mark None (set_mark_run "/tmp/?" (Some "a") two_marks)).2
  = Done (inr EmptyString) ∧
  (hpoon_get_mark (Some "a") (set_mark_run "/tmp/?" (Some "a") two_marks)).2
  = Done (inl (MarkDoesNotExist "a")).
Proof.
  destruct (X7_separator_in_encoding_loses_mark "/tmp/?" (Some "a") two_marks
              (set_mark_run "/tmp/?" (Some "a") two_marks)) as [Hlast Hnamed].
  - apply Properties.set_mark_run_ok. vm_compute. discriminate.
  - vm_compute. reflexivity.
  - vm_compute. reflexivity.
  - intros x [= <-]. repeat split; vm_compute; reflexivity.
  - split; [exact Hlast | exact (Hnamed "a" eq_refl)].
Defined.

(** X8: the listing and [hpoon_get_mark] agree.  What [hpoon_list]
    prints is one line [name: path] for each pair of a list without
    repeated names; a pair is in the list exactly when
    [hpoon_get_mark] returns the path for the name; and the reserved key
    is never listed. *)
Theorem X8_list_agrees_with_get (w w' : world) (output : string) :
  hpoon_list w output w' →
  ∃ kvs,
    output = concat_strings (list_line <$> kvs) ∧ NoDup kvs.*1 ∧
    (∀ k v, (k, v) ∈ kvs ↔ (hpoon_get_mark (Some k) w).2 = Done (inr v)) ∧
    (∀ k v, (k, v) ∈ kvs → k ≠ LAST_MARKED_KEY).
Proof.
  intros (data & kvs & Hl & Hperm & ->). exists kvs.
  assert (Hin : ∀ k v, (k, v) ∈ kvs ↔ marks data !! k = Some v).
  { intros k v. rewrite Hperm. apply elem_of_map_to_list. }
  assert (Hl2 : (load_hpoon w).2 = Done data) by (rewrite Hl; reflexivity).
  split; [apply listing_concat|]. split; [|split].
  - rewrite Hperm. apply NoDup_fst_map_to_list.
  - intros k v. rewrite Hin, (get_mark_loaded _ _ _ Hl2).
    destruct (marks data !! k) as [v'|]; split; congruence.
  - intros k v Hkv ->. apply Hin in Hkv.
    destruct (loaded_plain _ _ _ Hl) as [_ Hnone]. congruence.
Qed.

Lemma X8_list_agrees_with_get_witness :
  ∃ kvs,
    listing (map_to_list (<["b" := "C"]> (<["a" := "B"]> ∅)))
    = concat_strings (list_line <$> kvs) ∧ NoDup kvs.*1 ∧
    (∀ k v, (k, v) ∈ kvs ↔
            (hpoon_get_mark (Some k) two_marks).2 = Done (inr v)) ∧
    (∀ k v, (k, v) ∈ kvs → k ≠ LAST_MARKED_KEY).
Proof.
  apply (X8_list_agrees_with_get two_marks two_marks).
  exists (mkRecord "/x" (<["b" := "C"]> (<["a" := "B"]> ∅))),
         (map_to_list (<["b" := "C"]> (<["a" := "B"]> ∅))).
  split; [vm_compute; reflexivity|]. split; reflexivity.
Defined.

(** X9: one mark on a clean store.  After [hpoon_clean], marking a path
    that is not empty and encodes without separator under a name that is
    not the reserved key and holds neither separator nor line feed makes
    [hpoon_list] print the one line [name: path]. *)
Theorem X9_clean_mark_list (p x : string) (w0 w' w'' : world)
    (output : string) :
  has_byte KV_SEPERATOR (EncodeToString p) = false → p ≠ EmptyString →
  x ≠ LAST_MARKED_KEY → plain_key x →
  fits (create_hpoon_line LAST_MARKED_KEY p) → fits (create_hpoon_line x p) →
  hpoon_set_mark p (Some x) (hpoon_clean w0) w' →
  hpoon_list w' output w'' →
  output = x +:+ ": " +:+ p +:+ nl.
Proof.
  intros Hs Hp Hx Hplainx Hfp Hfx Hset Hlist.
  destruct (set_mark_steps p (Some x) _ w' Hset Hp)
    as (w1 & data & kvs & Hl & Hplain & Hnd & Hin & Hload).
  { intros y [= <-]. exact Hplainx. }
  assert (Hfit : Forall fits (written_lines (set_in_record p (Some x) data) kvs)).
  { apply (set_mark_lines_fit p (Some x) _ w1 data kvs Hl Hin Hfp).
    intros y [= <-]. exact Hfx. }
  rewrite bool_decide_eq_true_2 in Hload by exact Hfit.
  rewrite load_clean in Hl. injection Hl as _ <-.
  destruct Hlist as (data' & kvs' & Hl' & Hperm & ->).
  rewrite Hl' in Hload. cbn [snd] in Hload. injection Hload as ->.
  assert (Hmap : marks (scan_loop (written_lines
                   (set_in_record p (Some x) (mkRecord EmptyString ∅)) kvs)).1
                 = {[x := p]}).
  { apply map_eq. intros k. apply option_eq. intros v.
    rewrite reload_marks by assumption.
    rewrite Hin, set_in_record_lookup, lookup_singleton_Some. cbn [marks].
    split.
    - intros (_ & Hkv & _). destruct (decide (Some x = Some k)) as [[= ->]|_].
      + injection Hkv as <-. auto.
      + rewrite lookup_empty in Hkv. discriminate.
    - intros [<- <-]. rewrite decide_True by reflexivity. auto. }
  rewrite Hmap, map_to_list_singleton in Hperm.
  apply Permutation_singleton_r in Hperm as ->. reflexivity.
Qed.

Lemma X9_clean_mark_list_witness :
  listing (map_to_list {["myfile" := "/tmp/foo"]})
  = "myfile" +:+ ": " +:+ "/tmp/foo" +:+ nl.
Proof.
  apply (X9_clean_mark_list "/tmp/foo" "myfile" two_marks
           (set_mark_run "/tmp/foo" (Some "myfile") (hpoon_clean two_marks))
           (mkWorld (Some ("_/L3RtcC9mb28=" +:+ nl +:+ "myfile/L3RtcC9mb28="
                           +:+ nl)) [])).
  - vm_compute. reflexivity.
  - discriminate.
  - discriminate.
  - split; reflexivity.
  - vm_compute. reflexivity.
  - vm_compute. reflexivity.
  - apply Properties.set_mark_run_ok. vm_compute. discriminate.
  - exists (mkRecord "/tmp/foo" {["myfile" := "/tmp/foo"]}),
           (map_to_list {["myfile" := "/tmp/foo"]}).
    split; [vm_compute; reflexivity|]. split; reflexivity.
Defined.



(** X11: [hpoon <path> <name>], then [hpoon !<name>].  For a path
    argument that exists, is not [.] and not empty and encodes without
    separator, and a name that is not the reserved key and holds neither
    separator nor line feed, with lines that fit the scanner:
    [run_double_arg] marks the argument under the name, [run_single_arg]
    takes [!] and the name for a name reference, and
    [hpoon_out_mark_at] then prints the argument as it was given. *)
Theorem X11_name_then_reference (env : os_env) (arg name : string)
    (w w' : world) :
  check_path_exists env arg = true → arg ≠ "." → arg ≠ EmptyString →
  has_byte KV_SEPERATOR (EncodeToString arg) = false →
  name ≠ LAST_MARKED_KEY → plain_key name →
  fits (create_hpoon_line LAST_MARKED_KEY arg) →
  fits (create_hpoon_line name arg) →
  run_double_arg env arg name = CallSetMark arg (Some name) ∧
  run_single_arg env (NAME_REF +:+ name) = CallOutMarkAt (NAME_REF +:+ name) ∧
  (hpoon_set_mark arg (Some name) w w' →
   (hpoon_out_mark_at (NAME_REF +:+ name) w').2 = Printed arg).
Proof.
  intros Hex Hdot Hne Hs Hres Hplain Hf1 Hf2. split; [|split].
  - unfold run_double_arg. rewrite Hex. cbn [negb].
    rewrite bool_decide_eq_false_2 by exact Hdot. reflexivity.
  - rewrite run_single_arg_other by apply name_ref_not_keyword.
    rewrite (proj2 (check_name_ref_inv _)) by eauto. reflexivity.
  - intros Hset.
    destruct (set_then_get arg (Some name) w w' Hs Hf1) as [_ Hnamed];
      [intros x [= <-]; auto | exact Hset |].
    specialize (Hnamed name eq_refl).
    change (hpoon_out_mark_at (NAME_REF +:+ name) w')
      with (print_mark (hpoon_get_mark (Some name) w')).
    destruct (hpoon_get_mark (Some name) w') as [w2 o]. cbn [snd] in Hnamed.
    subst o. reflexivity.
Qed.

Lemma X11_name_then_reference_witness :
  run_double_arg home_env "docs" "d" = CallSetMark "docs" (Some "d") ∧
  run_single_arg home_env "!d" = CallOutMarkAt "!d" ∧
  (hpoon_out_mark_at "!d" (set_mark_run "docs" (Some "d") two_marks)).2
  = Printed "docs".
Proof.
  destruct (X11_name_then_reference home_env "docs" "d" two_marks
              (set_mark_run "docs" (Some "d") two_marks))
    as (Hdouble & Hsingle & Hout).
  - vm_compute. reflexivity.
  - discriminate.
  - discriminate.
  - vm_compute. reflexivity.
  - discriminate.
  - split; reflexivity.
  - vm_compute. reflexivity.
  - vm_compute. reflexivity.
  - split; [exact Hdouble|]. split; [exact Hsingle|]. apply Hout.
    apply Properties.set_mark_run_ok. vm_compute. discriminate.
Defined.

(** X12: what a name reference prints.  When [run_single_arg] calls
    [hpoon_out_mark_at], its argument is [!] and a name, so the slice
    that takes the name is in bounds; and over the record of the load
    the run prints the path of the name, or ends with the not-found
    error of that name when the map has no such name. *)
Theorem X12_name_reference_resolves (env : os_env) (arg a : string) :
  run_single_arg env arg = CallOutMarkAt a →
  a = arg ∧
  ∃ name, arg = NAME_REF +:+ name ∧
    ∀ w, (hpoon_out_mark_at arg w).2 ≠ Panicked ∧
      ∀ data, (load_hpoon w).2 = Done data →
        (hpoon_out_mark_at arg w).2 =
          match marks data !! name with
          | Some value => Printed value
          | None => Failed (MarkDoesNotExist name)
          end.
Proof.
  intros Hrun.
  destruct (decide (arg ∈ ["-h"; "--help"; "clean"; "list"])) as [Hkw|Hkw].
  { pose proof (run_single_arg_keyword env arg Hkw) as H. rewrite Hrun in H.
    repeat (apply elem_of_cons in H as [H|H]; [discriminate|]). inversion H. }
  rewrite run_single_arg_other in Hrun by exact Hkw.
  destruct (check_name_ref arg) eqn:Href.
  - injection Hrun as <-. split; [reflexivity|].
    apply check_name_ref_inv in Href as [name ->]. exists name.
    split; [reflexivity|]. intros w.
    change (hpoon_out_mark_at (NAME_REF +:+ name) w)
      with (print_mark (hpoon_get_mark (Some name) w)).
    unfold hpoon_get_mark.
    destruct (load_hpoon w) as [w1 [data|]]; cbn [print_mark snd].
    + split.
      * destruct (marks data !! name); discriminate.
      * intros data' [= <-]. destruct (marks data !! name); reflexivity.
    + split; discriminate.
  - destruct (filepath_abs env arg) as [path|]; [|discriminate].
    destruct (check_path_exists env path); discriminate.
Qed.

Lemma X12_name_reference_resolves_witness :
  (hpoon_out_mark_at "!a" two_marks).2 = Printed "B" ∧
  (hpoon_out_mark_at "!nope" two_marks).2 = Failed (MarkDoesNotExist "nope").
Proof.
  assert (Hload : (load_hpoon two_marks).2
                  = Done (mkRecord "/x" (<["b" := "C"]> (<["a" := "B"]> ∅))))
    by (vm_compute; reflexivity).
  split.
  - destruct (X12_name_reference_resolves home_env "!a" "!a" eq_refl)
      as (_ & name & Hname & Hout).
    unfold NAME_REF in Hname. rewrite append_cons in Hname.
    injection Hname as Hname. change (EmptyString +:+ name) with name in Hname.
    subst name. destruct (Hout two_marks) as [_ Hres].
    rewrite (Hres _ Hload). vm_compute. reflexivity.
  - destruct (X12_name_reference_resolves home_env "!nope" "!nope" eq_refl)
      as (_ & name & Hname & Hout).
    unfold NAME_REF in Hname. rewrite append_cons in Hname.
    injection Hname as Hname. change (EmptyString +:+ name) with name in Hname.
    subst name. destruct (Hout two_marks) as [_ Hres].
    rewrite (Hres _ Hload). vm_compute. reflexivity.
Defined.

(** X13: only what exists is marked.  Whatever the command line,
    [main] comes to [hpoon_set_mark] only with one argument that is no
    keyword and no name reference, passing without a name what
    [filepath.Abs] makes of it, found to exist; or with two arguments,
    the first found to exist, passing under the second as name the first
    as it is or the working directory for [.]. *)
Theorem X13_main_marks_existing_paths (env : os_env) (args : list string)
    (fpath : string) (name : option string) :
  main env args = Run (CallSetMark fpath name) →
  (∃ prog arg,
     args = [prog; arg] ∧ name = None ∧
     (arg ∉ ["-h"; "--help"; "clean"; "list"]) ∧ check_name_ref arg = false ∧
     filepath_abs env arg = Some fpath ∧ check_path_exists env fpath = true) ∨
  (∃ prog arg n,
     args = [prog; arg; n] ∧ name = Some n ∧
     check_path_exists env arg = true ∧
     fpath = if decide (arg = ".") then getwd env else arg).
Proof.
  destruct args as [|prog [|arg [|n [|more args]]]]; try discriminate.
  - cbn [main]. intros [= Hrun]. left. exists prog, arg.
    destruct (decide (arg ∈ ["-h"; "--help"; "clean"; "list"])) as [Hkw|Hkw].
    { pose proof (run_single_arg_keyword env arg Hkw) as H. rewrite Hrun in H.
      repeat (apply elem_of_cons in H as [H|H]; [discriminate|]). inversion H. }
    rewrite run_single_arg_other in Hrun by exact Hkw.
    destruct (check_name_ref arg); [discriminate|].
    destruct (filepath_abs env arg) as [path|]; [|discriminate].
    destruct (check_path_exists env path) eqn:Hex; [|discriminate].
    injection Hrun as <- <-. auto 10.
  - cbn [main]. unfold run_double_arg. intros [= Hrun]. right.
    exists prog, arg, n.
    destruct (check_path_exists env arg); [|discriminate]. cbn [negb] in Hrun.
    injection Hrun as <- <-. repeat split.
    destruct (decide (arg = ".")) as [->|Hne].
    + rewrite bool_decide_eq_true_2 by reflexivity. reflexivity.
    + rewrite bool_decide_eq_false_2 by exact Hne. reflexivity.
Qed.

Lemma X13_main_marks_existing_paths_witness :
  (∃ prog arg,
     ["hpoon"; "."; "here"] = [prog; arg] ∧ Some "here" = None ∧
     (arg ∉ ["-h"; "--help"; "clean"; "list"]) ∧ check_name_ref arg = false ∧
     filepath_abs home_env arg = Some "/home/u" ∧
     check_path_exists home_env "/home/u" = true) ∨
  (∃ prog arg n,
     ["hpoon"; "."; "here"] = [prog; arg; n] ∧ Some "here" = Some n ∧
     check_path_exists home_env arg = true ∧
     "/home/u" = if decide (arg = ".") then getwd home_env else arg).
Proof.
  apply (X13_main_marks_existing_paths home_env ["hpoon"; "."; "here"]).
  vm_compute. reflexivity.
Defined.

End MoreProperties.
